(** * The ranking core of the SHL assessment recommender

    A shallow embedding of [src/core/recommender.py]: the category
    inference with its fallbacks, the bucketing of the broad search
    results, the round-robin interleave and the final
    de-duplicate-and-truncate loop of [RAGRecommender.get_recommendations].

    Python values are embedded as follows.
    - [str] is [string]; a character is a code point below 256.
    - a metadata [dict] is a [gmap string pyval]; the dicts the search
      returns live in a heap (a list indexed by reference), because the
      final loop assigns to [meta['test_type']] in place.
    - [ranked_lists] is an insertion-ordered dict: an association list
      with unique keys.
    - [seen_urls] is a [gset] of hashable keys.
    - an exception is a constructor of [exn]; code that may raise lives
      in the [result] monad. *)

From Stdlib Require Import ZArith Ascii String.
From stdpp Require Import base tactics option list gmap strings fin_maps fin_sets.
From stdpp Require Import pretty.

Local Open Scope string_scope.
Local Open Scope Z_scope.
Local Open Scope list_scope.

(** ** Exceptions *)

Inductive exn : Type :=
| ValueError
| TypeError
| KeyError
| AttributeError
| ExternalError (msg : string).

Inductive result (A : Type) : Type :=
| Ok (a : A)
| Raise (e : exn).
Arguments Ok {A} a.
Arguments Raise {A} e.

Global Instance result_ret : MRet result := λ A a, Ok a.

Global Instance result_bind : MBind result := λ A B k r,
  match r with
  | Ok a => k a
  | Raise e => Raise e
  end.

(** [try: body except Exception: handler] *)
Definition try_except {A : Type} (body : result A) (handler : exn → result A)
  : result A :=
  match body with
  | Ok a => Ok a
  | Raise e => handler e
  end.

(** ** Python strings *)

Module PyStr.

(** [needle in hay] on two [str] *)
Fixpoint contains (needle hay : string) : bool :=
  String.prefix needle hay ||
  match hay with
  | EmptyString => false
  | String _ hay' => contains needle hay'
  end.

(** [s.split(',')] *)
Fixpoint split_comma (s : string) : list string :=
  match s with
  | EmptyString => [EmptyString]
  | String c s' =>
      if Ascii.eqb c "," then EmptyString :: split_comma s'
      else match split_comma s' with
           | [] => [String c EmptyString]
           | p :: ps => String c p :: ps
           end
  end.

(** The characters [str.strip()] removes, among the code points below 256. *)
Definition is_space (c : ascii) : bool :=
  let n := nat_of_ascii c in
  ((9 <=? n) && (n <=? 13) || (28 <=? n) && (n <=? 32)
   || (n =? 133) || (n =? 160))%nat.

Fixpoint lstrip (s : string) : string :=
  match s with
  | EmptyString => EmptyString
  | String c s' => if is_space c then lstrip s' else s
  end.

Fixpoint rstrip (s : string) : string :=
  match s with
  | EmptyString => EmptyString
  | String c s' =>
      match rstrip s' with
      | EmptyString => if is_space c then EmptyString else String c EmptyString
      | r => String c r
      end
  end.

(** [s.strip()] *)
Definition strip (s : string) : string := rstrip (lstrip s).

End PyStr.

(** ** Python values and metadata dicts *)

(** The values of a metadata dict: the embedder stores [str] and [int]
    fields, and the final loop puts a [list] of [str] under ['test_type']. *)
Inductive pyval : Type :=
| VStr (s : string)
| VInt (z : Z)
| VList (l : list string).

Global Instance pyval_eq_dec : EqDecision pyval.
Proof. solve_decision. Defined.

Abbreviation pydict := (gmap string pyval).

(** A reference to a dict on the heap, and the heap itself. *)
Abbreviation ref := nat.
Abbreviation heap := (list pydict).

(** [d[key]] *)
Definition getitem (d : pydict) (key : string) : result pyval :=
  match d !! key with
  | Some v => Ok v
  | None => Raise KeyError
  end.

(** [meta[key]] for [meta] a reference *)
Definition deref (h : heap) (meta : ref) : result pydict :=
  match h !! meta with
  | Some d => Ok d
  | None => Raise (ExternalError "no such object")
  end.

(** What [hash(v)] makes of a value that goes into a [set]: a [str] or an
    [int] is its own key, a [list] is unhashable. *)
Abbreviation hkey := (string + Z)%type.

Definition py_hash (v : pyval) : result hkey :=
  match v with
  | VStr s => Ok (inl s)
  | VInt z => Ok (inr z)
  | VList _ => Raise TypeError
  end.

(** [type_name in v] *)
Definition py_in (type_name : string) (v : pyval) : result bool :=
  match v with
  | VStr s => Ok (PyStr.contains type_name s)
  | VInt _ => Raise TypeError
  | VList l => Ok (bool_decide (type_name ∈ l))
  end.

(** [[t.strip() for t in v.split(',')]] *)
Definition split_test_type (v : pyval) : result (list string) :=
  match v with
  | VStr s => Ok (PyStr.strip <$> PyStr.split_comma s)
  | VInt _ | VList _ => Raise AttributeError
  end.

(** ** The category table and the classifier *)

Definition TEST_TYPE_MAP : gmap string string :=
  list_to_map
    [("A", "Ability & Aptitude");
     ("B", "Biodata & Situational Judgement");
     ("C", "Competencies");
     ("D", "Development & 360");
     ("E", "Assessment Exercises");
     ("K", "Knowledge & Skills");
     ("P", "Personality & Behavior");
     ("S", "Simulations")].

(** What [json.loads] can return (of a number only its being one matters). *)
#[local] Unset Elimination Schemes.
Inductive json : Type :=
| JNull
| JBool (b : bool)
| JNum (z : Z)
| JStr (s : string)
| JList (l : list json)
| JDict (l : list (string * json)).
#[local] Set Elimination Schemes.

(** [TEST_TYPE_MAP.get(key)]: a [list] or a [dict] is unhashable, any other
    value that is not one of the eight letters is simply absent. *)
Definition TEST_TYPE_MAP_get (key : json) : result (option string) :=
  match key with
  | JStr s => Ok (TEST_TYPE_MAP !! s)
  | JNull | JBool _ | JNum _ => Ok None
  | JList _ | JDict _ => Raise TypeError
  end.

(** The truth value of what [TEST_TYPE_MAP.get] returned. *)
Definition truthy (v : option string) : bool :=
  match v with
  | Some s => negb (String.eqb s "")
  | None => false
  end.

(** The process-wide objects and what the outside world answers to the calls
    of one query.
    - [llm] is [None] when configuring Gemini failed at import time, and
      otherwise the outcome of [generate_content], the clean-up of the
      reply and [json.loads] on it (lines 81 to 83);
    - [encode] is the outcome of [self.embed_model.encode(query).tolist()];
    - [query] is the outcome of [self.collection.query(...)], reduced to its
      ['metadatas'] entry ([None] for Python's [None]). *)
Record backend : Type := {
  llm : option (result json);
  encode : result unit;
  query : result (option (list (list pydict)))
}.

(** [self.client] and [self.embed_model], each [true] when it is not [None]. *)
Record recommender : Type := {
  client : bool;
  embed_model : bool
}.

Definition _analyze_query_with_llm (llm : option (result json))
  : result (list json) :=
  match llm with
  | None => Ok [JStr "K"; JStr "P"; JStr "A"]
  | Some generate =>
      try_except
        (test_types ← generate;
         match test_types with
         | JList l => Ok l
         | _ => Ok [JStr "K"; JStr "P"]
         end)
        (λ _, Ok [JStr "K"; JStr "P"])
  end.

(** [[TEST_TYPE_MAP.get(key) for key in required_type_keys
      if TEST_TYPE_MAP.get(key)]] *)
Fixpoint required_type_names (required_type_keys : list json)
  : result (list string) :=
  match required_type_keys with
  | [] => Ok []
  | key :: keys =>
      v ← TEST_TYPE_MAP_get key;
      names ← required_type_names keys;
      Ok (if truthy v then default "" v :: names else names)
  end.

(** ** [ranked_lists]: an insertion-ordered dict of buckets *)

Abbreviation odict := (list (string * list ref)).

Fixpoint od_get (d : odict) (k : string) : option (list ref) :=
  match d with
  | [] => None
  | (k', v) :: d' => if decide (k = k') then Some v else od_get d' k
  end.

(** [d[k] = v]: an existing key keeps its place. *)
Fixpoint od_set (d : odict) (k : string) (v : list ref) : odict :=
  match d with
  | [] => [(k, v)]
  | (k', v') :: d' =>
      if decide (k = k') then (k, v) :: d' else (k', v') :: od_set d' k v
  end.

(** [{name: [] for name in required_type_names}] *)
Definition empty_buckets (names : list string) : odict :=
  foldl (λ d name, od_set d name []) [] names.

(** [ranked_lists[type_name].append(meta)] *)
Definition od_append (d : odict) (type_name : string) (meta : ref)
  : result odict :=
  match od_get d type_name with
  | Some bucket => Ok (od_set d type_name (bucket ++ [meta]))
  | None => Raise KeyError
  end.

(** The inner loop of step 4, with its [break]. *)
Fixpoint scan_type_names (d : pydict) (meta : ref) (names : list string)
    (ranked_lists : odict) : result odict :=
  match names with
  | [] => Ok ranked_lists
  | type_name :: names' =>
      test_type ← getitem d "test_type";
      found ← py_in type_name test_type;
      if found : bool then od_append ranked_lists type_name meta
      else scan_type_names d meta names' ranked_lists
  end.

(** The outer loop of step 4. *)
Fixpoint bucket_loop (h : heap) (names : list string) (metas : list ref)
    (ranked_lists : odict) : result odict :=
  match metas with
  | [] => Ok ranked_lists
  | meta :: metas' =>
      d ← deref h meta;
      ranked_lists' ← scan_type_names d meta names ranked_lists;
      bucket_loop h names metas' ranked_lists'
  end.

Definition bucket_candidates (h : heap) (names : list string)
    (metas : list ref) : result odict :=
  bucket_loop h names metas (empty_buckets names).

(** ** Interleaving *)

(** [max(...)] of a sequence of lengths *)
Definition py_max (ns : list nat) : result nat :=
  match ns with
  | [] => Raise ValueError
  | n :: ns' => Ok (foldl Nat.max n ns')
  end.

Section interleave.
Context {A : Type}.

(** The body of [for l in lists] at index [i]. *)
Definition interleave_step (i : nat) (interleaved : list A) (l : list A)
  : list A :=
  if bool_decide (i < length l)%nat
  then match l !! i with
       | Some x => interleaved ++ [x]
       | None => interleaved
       end
  else interleaved.

Definition _interleave_lists (lists : list (list A)) : result (list A) :=
  max_len ← py_max (length <$> lists);
  Ok (foldl (λ interleaved i, foldl (interleave_step i) interleaved lists)
            [] (seq 0 max_len)).
End interleave.

(** ** De-duplication and truncation *)

Record dedup_state : Type := {
  final_recommendations : list ref;
  seen_urls : gset hkey;
  store : heap
}.

(** The body of [if meta['url'] not in seen_urls]. *)
Definition keep (st : dedup_state) (meta : ref) (d : pydict) (k : hkey)
  : result dedup_state :=
  test_type ← getitem d "test_type";
  parts ← split_test_type test_type;
  Ok {| final_recommendations := final_recommendations st ++ [meta];
        seen_urls := seen_urls st ∪ {[k]};
        store := <[meta := <["test_type" := VList parts]> d]> (store st) |}.

(** The loop of step 6, with its [break]. *)
Fixpoint dedup_loop (max_results : Z) (final_list : list ref)
    (st : dedup_state) : result dedup_state :=
  match final_list with
  | [] => Ok st
  | meta :: final_list' =>
      d ← deref (store st) meta;
      url ← getitem d "url";
      k ← py_hash url;
      st' ← (if bool_decide (k ∈ seen_urls st) then Ok st
             else keep st meta d k);
      if bool_decide (max_results ≤ Z.of_nat (length (final_recommendations st')))
      then Ok st'
      else dedup_loop max_results final_list' st'
  end.

Definition dedup_init (h : heap) : dedup_state :=
  {| final_recommendations := []; seen_urls := ∅; store := h |}.

(** ** The whole query *)

Definition not_initialized : pydict :=
  {[ "error" := VStr "Recommender not initialized" ]}.

(** Steps 4 to 6, on the dicts of [broad_results['metadatas'][0]]: these are
    the objects [0 .. n-1] of the heap. *)
Definition rank (names : list string) (metas : list pydict) (max_results : Z)
  : result (list ref * heap) :=
  ranked_lists ← bucket_candidates metas names (seq 0 (length metas));
  final_list ← _interleave_lists (ranked_lists.*2);
  st ← dedup_loop max_results final_list (dedup_init metas);
  Ok (final_recommendations st, store st).

(** Step 3 and the test on ['metadatas']. *)
Definition search_and_rank (w : backend) (names : list string)
    (max_results : Z) : result (list ref * heap) :=
  match query w with
  | Raise _ => Ok ([], [])
  | Ok None | Ok (Some []) => Ok ([], [])
  | Ok (Some (metas :: _)) => rank names metas max_results
  end.

(** The value is the returned list, as references, with the heap that
    holds the dicts it refers to. *)
Definition get_recommendations (self : recommender) (w : backend)
    (max_results : Z) : result (list ref * heap) :=
  if negb (client self) || negb (embed_model self)
  then Ok ([0%nat], [not_initialized])
  else
    required_type_keys ← _analyze_query_with_llm (llm w);
    names ← required_type_names required_type_keys;
    _ ← encode w;
    search_and_rank w names max_results.

Definition default_max_results : Z := 10.

(** The dicts the caller holds after the call. *)
Definition records (out : list ref * heap) : list pydict :=
  omap (λ r, out.2 !! r) out.1.

(** ** The round-robin order, in the words of the specification *)

Section round_robin.
Context {A : Type}.

(** Index [i] of every bucket that still has one, in priority order. *)
Definition round (buckets : list (list A)) (i : nat) : list A :=
  omap (λ bucket, bucket !! i) buckets.

(** Rounds [0], [1], ... up to (not including) round [n]. *)
Definition rounds (buckets : list (list A)) (n : nat) : list A :=
  mjoin (round buckets <$> seq 0 n).

(** Every bucket is exhausted at index [i]. *)
Definition exhausted (buckets : list (list A)) (i : nat) : Prop :=
  Forall (λ bucket, (length bucket ≤ i)%nat) buckets.
End round_robin.

(** ** The bucketing rule, in the words of the specification *)

(** The bucket [ranked_lists] holds under [name] (empty when there is none). *)
Definition bucket (ranked_lists : odict) (name : string) : list ref :=
  default [] (od_get ranked_lists name).

(** The stored [test_type] string of a retrieved candidate. *)
Definition test_type_str (h : heap) (r : ref) : option string :=
  d ← h !! r;
  v ← d !! "test_type";
  match v with VStr s => Some s | _ => None end.

(** The first inferred category, in the order of the inferred list, whose
    name the [test_type] string contains. *)
Definition first_matching (names : list string) (test_type : string)
  : option string :=
  List.find (λ name, PyStr.contains name test_type) names.

Definition chosen (h : heap) (names : list string) (r : ref) : option string :=
  test_type_str h r ≫= first_matching names.

(** The rule as the data model words it: the first category of the item's
    own list, in the item's own order, that is one of the inferred ones. *)
Definition own_order_choice (names : list string) (test_type : string)
  : option string :=
  List.find (λ category, bool_decide (category ∈ names))
            (PyStr.strip <$> PyStr.split_comma test_type).

(** The data model's rule, as a property of the buckets the code builds
    from the candidates [metas]. *)
Definition own_order_rule (names : list string) (metas : list pydict) : Prop :=
  ∀ ranked_lists r name s,
    bucket_candidates metas names (seq 0 (length metas)) = Ok ranked_lists →
    r ∈ bucket ranked_lists name →
    test_type_str metas r = Some s →
    own_order_choice names s = Some name.

(** ** De-duplication, in the words of the specification *)

(** The key under which the url of a candidate goes into [seen_urls]. *)
Definition url_key (h : heap) (r : ref) : option hkey :=
  d ← h !! r;
  u ← d !! "url";
  match py_hash u with Ok k => Some k | Raise _ => None end.

(** A retrieved catalog item: its url is hashable and its [test_type] is
    the stored comma-joined string. *)
Definition catalog_item (d : pydict) : bool :=
  match d !! "url", d !! "test_type" with
  | Some (VStr _ | VInt _), Some (VStr _) => true
  | _, _ => false
  end.

Definition catalog_ref (h : heap) (r : ref) : Prop :=
  ∃ d, h !! r = Some d ∧ catalog_item d = true.

(** The items of [l] whose key has not occurred earlier in [l]. *)
Fixpoint first_occurrences {A K : Type} `{EqDecision K} (key : A → K)
    (l : list A) : list A :=
  match l with
  | [] => []
  | x :: l' => x :: filter (λ y, key y ≠ key x) (first_occurrences key l')
  end.

(** The record with its comma-joined [test_type] turned into the list of
    its trimmed parts. *)
Definition normalized (d : pydict) : pydict :=
  match d !! "test_type" with
  | Some (VStr s) =>
      <["test_type" := VList (PyStr.strip <$> PyStr.split_comma s)]> d
  | _ => d
  end.

(** The heap once the records in [kept] have been normalized. *)
Definition normalize_kept (kept : list ref) (h : heap) : heap :=
  imap (λ r d, if decide (r ∈ kept) then normalized d else d) h.

(** ** The whole ranking, in closed form *)

(** One bucket per inferred name, in the order the names first occur; each
    holds, in arrival order, the candidates whose first matching name it is. *)
Definition buckets_of (names : list string) (metas : list pydict)
  : list (list ref) :=
  (λ n, filter (λ r, chosen metas names r = Some n) (seq 0 (length metas)))
    <$> first_occurrences id names.

(** The candidates returned: the rounds over the buckets, reduced to the
    first occurrence of each url and cut at the limit. *)
Definition ranking (names : list string) (metas : list pydict) (limit : Z)
  : list ref :=
  let buckets := buckets_of names metas in
  take (Z.to_nat (Z.max 1 limit))
       (first_occurrences (url_key metas)
          (rounds buckets (max_list (length <$> buckets)))).

(** How often [x] occurs in [l]. *)
Definition multiplicity `{EqDecision A} (x : A) (l : list A) : nat :=
  length (filter (x =.) l).

(** ** Claims of the specification, as predicates on a run *)

(** "[finalize] returns exactly [min(limit, distinct urls present)] items,
    each url at most once, in the order of the first occurrences." *)
Definition dedup_truncate_claim (h : heap) (items : list ref) (limit : Z)
  : Prop :=
  ∃ st,
    dedup_loop limit items (dedup_init h) = Ok st
    ∧ Z.of_nat (length (final_recommendations st))
      = Z.min limit
          (Z.of_nat (size (list_to_set (C:=gset (option hkey))
                             (url_key h <$> items))))
    ∧ NoDup (url_key (store st) <$> final_recommendations st)
    ∧ final_recommendations st `sublist_of` items
    ∧ final_recommendations st `prefix_of` first_occurrences (url_key h) items.

(** "Category inference always returns a usable non-empty sequence." *)
Definition fallback_claim (llm : option (result json)) : Prop :=
  ∃ keys, _analyze_query_with_llm llm = Ok keys ∧ keys ≠ [].

(** The seven fields of a record of the response. *)
Definition response_fields : gset string :=
  {[ "url"; "name"; "adaptive_support"; "description"; "duration";
     "remote_support"; "test_type" ]}.

Definition well_formed_record (d : pydict) : Prop :=
  dom d = response_fields ∧ ∃ l, d !! "test_type" = Some (VList l).

(** "The caller never receives a partial or malformed record." *)
Definition records_claim (self : recommender) (w : backend) (max_results : Z)
  : Prop :=
  ∀ out, get_recommendations self w max_results = Ok out →
         Forall well_formed_record (records out).

(** "No mutation of catalog items": every retrieved record is after the call
    what it was when the search returned it. *)
Definition no_mutation_claim (self : recommender) (w : backend)
    (max_results : Z) : Prop :=
  ∀ out metas rest,
    query w = Ok (Some (metas :: rest)) →
    get_recommendations self w max_results = Ok out →
    ∀ r d, metas !! r = Some d → out.2 !! r = Some d.

(** A record as the embedder stores it: the seven fields, a hashable url
    and the comma-joined [test_type] string. *)
Definition stored_item (d : pydict) : bool :=
  bool_decide (dom d = response_fields) && catalog_item d.

(** ** Concrete inputs *)

Definition item (url test_type : string) : pydict :=
  list_to_map
    [("name", VStr "Assessment"); ("url", VStr url);
     ("description", VStr ""); ("test_type", VStr test_type);
     ("duration", VInt (-1)); ("adaptive_support", VStr "No");
     ("remote_support", VStr "Yes")].

Definition ready : recommender := {| client := true; embed_model := true |}.

Definition not_ready : recommender :=
  {| client := false; embed_model := false |}.

(** The classifier replies [reply] and the search returns [metas]. *)
Definition world (reply : json) (metas : list pydict) : backend :=
  {| llm := Some (Ok reply); encode := Ok (); query := Ok (Some [metas]) |}.

Definition K_and_P : json := JList [JStr "K"; JStr "P"].

Definition sample_metas : list pydict :=
  [item "u1" "Knowledge & Skills";
   item "u2" "Personality & Behavior, Knowledge & Skills";
   item "u3" "Simulations";
   item "u1" "Personality & Behavior"].

(** Five "Knowledge & Skills" items and three "Personality & Behavior"
    items, all urls distinct. *)
Definition five_K_three_P : list pydict :=
  [item "k1" "Knowledge & Skills"; item "k2" "Knowledge & Skills";
   item "k3" "Knowledge & Skills"; item "k4" "Knowledge & Skills";
   item "k5" "Knowledge & Skills";
   item "p1" "Personality & Behavior"; item "p2" "Personality & Behavior";
   item "p3" "Personality & Behavior"].

(** The inferred list is K, P; the candidate's own list is P, K. *)
Definition own_order_names : list string :=
  ["Knowledge & Skills"; "Personality & Behavior"].

Definition own_order_metas : list pydict :=
  [item "u2" "Personality & Behavior, Knowledge & Skills"].

(** * The rest of the pipeline *)

(** ** More of Python's [str] *)

(** [sep.join(parts)] *)
Fixpoint str_join (sep : string) (parts : list string) : string :=
  match parts with
  | [] => ""
  | [part] => part
  | part :: parts' => part +:+ sep +:+ str_join sep parts'
  end.

(** [c in s] for a character [c] *)
Fixpoint has_char (c : ascii) (s : string) : bool :=
  match s with
  | EmptyString => false
  | String c' s' => Ascii.eqb c c' || has_char c s'
  end.

(** A category name as the catalog gives it: no comma in it, no white space
    at either end. *)
Definition clean (s : string) : Prop :=
  has_char "," s = false ∧ PyStr.strip s = s.

(** The eight category names. *)
Definition category_names : list string := (map_to_list TEST_TYPE_MAP).*2.

(** A name the search for which in a joined string is a search in the
    parts: not empty, no comma in it, no blank in front. *)
Definition searchable (name : string) : bool :=
  match name with
  | EmptyString => false
  | String m _ => negb (has_char "," name) && negb (Ascii.eqb m " ")
  end.

(** No name of [names] occurs inside another one. *)
Definition no_name_inside_another (names : list string) : bool :=
  forallb (λ n, forallb (λ m, implb (PyStr.contains n m) (String.eqb n m))
                        names) names.

(** ** More on the recommender *)

(** The references of [l] grow along the list. *)
Definition in_order (l : list ref) : Prop :=
  ∀ i j x y, l !! i = Some x → l !! j = Some y → (i < j)%nat → (x < y)%nat.

(** A key [TEST_TYPE_MAP.get] cannot hash. *)
Definition unhashable (key : json) : bool :=
  match key with
  | JList _ | JDict _ => true
  | _ => false
  end.

(** ** [data_pipeline/embedder.py] *)

(** A row of the crawled data frame. [duration] is [None] for a missing
    value and otherwise the integer [int(row['duration'])] yields. *)
Record row : Type := {
  row_name : string;
  row_url : string;
  row_description : string;
  row_test_type : list string;
  row_duration : option Z;
  row_adaptive_support : string;
  row_remote_support : string
}.

Definition doc_text (r : row) (test_type_str : string) : string :=
  "Name: " +:+ row_name r +:+ String "010" ("Type: " +:+ test_type_str
  +:+ String "010" ("Description: " +:+ row_description r)).

(** The metadata dict of one row. *)
Definition metadata (r : row) : pydict :=
  let test_type_str := str_join ", " (row_test_type r) in
  list_to_map
    [("name", VStr (row_name r));
     ("url", VStr (row_url r));
     ("description", VStr (row_description r));
     ("test_type", VStr test_type_str);
     ("duration", VInt (match row_duration r with Some z => z | None => -1 end));
     ("adaptive_support", VStr (row_adaptive_support r));
     ("remote_support", VStr (row_remote_support r))].

(** The loop of [create_document_chunks] over [df.iterrows()]. *)
Definition create_document_chunks (df : list row)
  : list string * list pydict * list string :=
  foldl (λ '(documents, metadatas, ids) '(i, r),
           (documents ++ [doc_text r (str_join ", " (row_test_type r))],
            metadatas ++ [metadata r],
            ids ++ ["assessment_" +:+ pretty (i : nat)]))
        ([], [], []) (imap pair df).

Definition batch_size : nat := 100.

(** [range(0, n, step)] *)
Definition py_range_step (n step : nat) : list nat :=
  (λ k, k * step)%nat <$> seq 0 ((n + step - 1) / step)%nat.

(** [l[i:i+batch_size]] *)
Definition batch_slice {A : Type} (l : list A) (i : nat) : list A :=
  take batch_size (drop i l).

(** The batches [main] hands to [collection.add], each with the two
    numbers of its progress message: [i//batch_size + 1] and
    [(len(documents)//batch_size) + 1]. *)
Definition embed_batches {A : Type} (documents : list A)
  : list (nat * nat * list A) :=
  (λ i, ((i / batch_size + 1)%nat,
         (length documents / batch_size + 1)%nat,
         batch_slice documents i))
    <$> py_range_step (length documents) batch_size.

(** ** [data_pipeline/crawler.py] *)

Definition make_absolute_url (url : string) : string :=
  if String.prefix "/" url then "https://www.shl.com" +:+ url else url.

(** What BeautifulSoup answers to the questions the crawler asks of a page.
    - [a_text], [href]: the text of an [a] tag and its [href] attribute;
    - a product row is a [tr] with a [data-entity-id]: its first [a], if
      any, and the texts of its [span.product-catalogue__key];
    - a table wrapper is a [div.custom__table-wrapper], given by the product
      rows inside it, in document order;
    - a tooltip item is a [li.custom__tooltip-item]: the text of its
      [span.product-catalogue__key], if it has one, with the text that
      follows the span ([None] when what follows is not a string);
    - [tooltip] is the [div#productCatalogueTooltip] with its items;
    - [details_content] is the [div.product-catalogue__details-content]
      with the texts of its [p] tags. *)
Record anchor : Type := { a_text : string; href : option string }.

Record product_row : Type := {
  link_tag : option anchor;
  key_tags : list string
}.

Record tooltip_item : Type := {
  key_tag : option (string * option string)
}.

Record soup : Type := {
  tooltip : option (list tooltip_item);
  table_wrappers : list (list product_row);
  details_content : option (list string)
}.

(** The loop of [get_test_type_map], with the map it has built when it
    ends or raises. *)
Fixpoint tooltip_loop (list_items : list tooltip_item)
    (key_map : gmap string string) : gmap string string * result unit :=
  match list_items with
  | [] => (key_map, Ok ())
  | item :: list_items' =>
      match key_tag item with
      | Some (text, Some next_sibling) =>
          tooltip_loop list_items'
            (<[PyStr.strip text := PyStr.strip next_sibling]> key_map)
      | Some (_, None) | None => (key_map, Raise AttributeError)
      end
  end.

(** The [except] only prints: the map built so far is returned. *)
Definition get_test_type_map (s : soup) : gmap string string :=
  match tooltip s with
  | None => ∅
  | Some list_items => (tooltip_loop list_items ∅).1
  end.

(** The body of the [try] in the loop over the product rows: [Ok None] is
    the [continue] of a row without link. *)
Definition parse_row (test_type_map : gmap string string) (r : product_row)
  : result (option (gmap string json)) :=
  match link_tag r with
  | None => Ok None
  | Some a =>
      let assessment_name := PyStr.strip (a_text a) in
      url ← match href a with
            | Some url => Ok url
            | None => Raise AttributeError
            end;
      let assessment_url := make_absolute_url url in
      let test_types :=
        (λ text, default (PyStr.strip text)
                         (test_type_map !! PyStr.strip text))
          <$> key_tags r in
      Ok (Some (list_to_map
                  [("name", JStr assessment_name);
                   ("url", JStr assessment_url);
                   ("test_type", JList (JStr <$> test_types))]))
  end.

Definition has_rows (wrapper : list product_row) : bool :=
  match wrapper with [] => false | _ :: _ => true end.

Definition parse_page_for_items (s : soup)
    (test_type_map : gmap string string) : list (gmap string json) :=
  match List.find has_rows (table_wrappers s) with
  | None => []
  | Some product_rows =>
      if has_rows product_rows
      then foldl (λ all_assessments r,
                    match parse_row test_type_map r with
                    | Ok (Some assessment_data) =>
                        all_assessments ++ [assessment_data]
                    | Ok None | Raise _ => all_assessments
                    end)
                 [] product_rows
      else []
  end.

Definition default_details : gmap string json :=
  list_to_map
    [("description", JStr "No description found.");
     ("adaptive_support", JStr "No");
     ("duration", JNull);
     ("remote_support", JStr "No")].

(** [get_soup] is the world: [None] when the request fails. *)
Definition scrape_assessment_details (get_soup : string → option soup)
    (assessment_url : string) : option (gmap string json) :=
  match get_soup assessment_url with
  | None => None
  | Some s =>
      Some match details_content s with
           | Some p_texts =>
               let full_desc :=
                 str_join " " (filter (λ t, t ≠ "") (PyStr.strip <$> p_texts))
               in
               if decide (full_desc = "") then default_details
               else <["description" := JStr full_desc]> default_details
           | None => default_details
           end
  end.

Definition CATALOG_URL : string :=
  "https://www.shl.com/solutions/products/product-catalog/".

Definition page_url (start_index : nat) : string :=
  CATALOG_URL +:+ "?start=" +:+ pretty start_index +:+ "&type=1".

(** The [while True] of [main]: [None] when the fuel runs out before the
    loop breaks; otherwise the items found and the final [page_count]. *)
Fixpoint crawl_pages (fuel : nat) (get_soup : string → option soup)
    (main_soup : soup) (test_type_map : gmap string string)
    (page_count : nat) (all_assessment_items : list (gmap string json))
  : option (list (gmap string json) * nat) :=
  match fuel with
  | O => None
  | S fuel' =>
      let start_index := ((page_count - 1) * 12)%nat in
      let current_page_soup :=
        if decide (start_index = 0%nat) then Some main_soup
        else get_soup (page_url start_index) in
      match current_page_soup with
      | None => Some (all_assessment_items, page_count)
      | Some page =>
          match parse_page_for_items page test_type_map with
          | [] => Some (all_assessment_items, page_count)
          | items_on_page =>
              crawl_pages fuel' get_soup main_soup test_type_map
                (S page_count) (all_assessment_items ++ items_on_page)
          end
      end
  end.

(** [item['url']] of a crawled item *)
Definition item_url (assessment_data : gmap string json) : result string :=
  match assessment_data !! "url" with
  | Some (JStr url) => Ok url
  | Some _ => Raise TypeError
  | None => Raise KeyError
  end.

(** The loop that adds the details: [{**item, **details}] for the items
    whose page could be fetched. *)
Fixpoint add_details (get_soup : string → option soup)
    (all_assessment_items final_data : list (gmap string json))
  : result (list (gmap string json)) :=
  match all_assessment_items with
  | [] => Ok final_data
  | assessment_data :: rest =>
      url ← item_url assessment_data;
      match scrape_assessment_details get_soup url with
      | Some details =>
          add_details get_soup rest
            (final_data ++ [details ∪ assessment_data])
      | None => add_details get_soup rest final_data
      end
  end.

(** [main], from the first fetch to the end of the details loop: [None]
    when the fuel runs out in the page loop; [Ok None] when the catalog
    could not be fetched and [main] returns; [Ok (Some final_data)] for the
    list [main] hands to [json.dump]. The calls [os.makedirs] before the
    first fetch and [open] and [json.dump] after the details loop are not
    part of the model. *)
Definition crawler_main (fuel : nat) (get_soup : string → option soup)
  : option (result (option (list (gmap string json)))) :=
  match get_soup CATALOG_URL with
  | None => Some (Ok None)
  | Some main_soup =>
      let test_type_map := get_test_type_map main_soup in
      match crawl_pages fuel get_soup main_soup test_type_map 1 [] with
      | None => None
      | Some (all_assessment_items, _) =>
          Some (final_data ← add_details get_soup all_assessment_items [];
                Ok (Some final_data))
      end
  end.

(** The entry a tooltip item contributes, when it is well formed. *)
Definition item_pair (item : tooltip_item) : option (string * string) :=
  match key_tag item with
  | Some (text, Some next_sibling) =>
      Some (PyStr.strip text, PyStr.strip next_sibling)
  | _ => None
  end.

(** The product rows of the page: those of the first table wrapper that has
    any. *)
Definition product_rows_of (s : soup) : list product_row :=
  default [] (List.find has_rows (table_wrappers s)).

(** The catalog page number [n], counted from 1, as [main] gets it. *)
Definition catalog_page (get_soup : string → option soup) (main_soup : soup)
    (n : nat) : option soup :=
  if decide (((n - 1) * 12)%nat = 0%nat) then Some main_soup
  else get_soup (page_url ((n - 1) * 12)).

(** The items of catalog page [n]: [None] when the page cannot be fetched. *)
Definition page_items (get_soup : string → option soup) (main_soup : soup)
    (test_type_map : gmap string string) (n : nat)
  : option (list (gmap string json)) :=
  (λ page, parse_page_for_items page test_type_map)
    <$> catalog_page get_soup main_soup n.

(** A record as the crawler writes it. *)
Definition crawled_record (d : gmap string json) : Prop :=
  dom d = response_fields
  ∧ d !! "duration" = Some JNull
  ∧ d !! "adaptive_support" = Some (JStr "No")
  ∧ d !! "remote_support" = Some (JStr "No")
  ∧ (∃ description, d !! "description" = Some (JStr description)
                    ∧ description ≠ "")
  ∧ (∃ url, d !! "url" = Some (JStr url) ∧ String.prefix "/" url = false).

(** What the details loop appends for one item: the item completed with
    its details when its page can be fetched, nothing otherwise. *)
Definition complete_data (get_soup : string → option soup)
    (assessment_data : gmap string json) : option (gmap string json) :=
  match assessment_data !! "url" with
  | Some (JStr u) =>
      (λ details, details ∪ assessment_data)
        <$> scrape_assessment_details get_soup u
  | _ => None
  end.

(** The link of a product row that yields an item: the row has an [a] tag,
    and the tag an [href]. *)
Definition linked_anchor (r : product_row) : option anchor :=
  a ← link_tag r; match href a with Some _ => Some a | None => None end.

(** An item as [parse_page_for_items] builds it. *)
Definition catalog_entry (d : gmap string json) : Prop :=
  dom d = ({[ "name"; "url"; "test_type" ]} : gset string)
  ∧ ∃ url, d !! "url" = Some (JStr url) ∧ String.prefix "/" url = false.

(** A catalog page with one product, and two worlds: one where only the
    catalog page can be fetched, one where every request is answered with
    that page. *)
Definition java_row : product_row :=
  {| link_tag := Some {| a_text := " Java 8 ";
                         href := Some "/products/java-8/" |};
     key_tags := [" K "; "P"] |}.

Definition one_page : soup :=
  {| tooltip := Some [ {| key_tag := Some ("K", Some " Knowledge & Skills ") |} ];
     table_wrappers := [ []; [ java_row ] ];
     details_content := Some [ " Tests Java 8. "; " " ] |}.

Definition catalog_only (u : string) : option soup :=
  if String.eqb u CATALOG_URL then Some one_page else None.

Definition same_page (u : string) : option soup := Some one_page.

(** The catalog page and the page of its one product can be fetched, no
    other page can. *)
Definition java_site (u : string) : option soup :=
  if String.eqb u CATALOG_URL then Some one_page
  else if String.eqb u "https://www.shl.com/products/java-8/"
       then Some one_page
       else None.

Definition java_record : gmap string json :=
  list_to_map
    [("name", JStr "Java 8");
     ("url", JStr "https://www.shl.com/products/java-8/");
     ("test_type", JList [JStr "Knowledge & Skills"; JStr "P"]);
     ("description", JStr "Tests Java 8.");
     ("adaptive_support", JStr "No");
     ("duration", JNull);
     ("remote_support", JStr "No")].

(** ** [api/main.py] *)

(** [RAGRecommender()]: [load] is the outcome of opening the vector store,
    getting the collection and loading the embedding model; [__init__]
    catches its failure and leaves both handles [None]. *)
Definition RAGRecommender (load : result unit) : result recommender :=
  try_except (_ ← load; Ok {| client := true; embed_model := true |})
             (λ _, Ok {| client := false; embed_model := false |}).

(** The module-level [recommender] of the API: [None] when the constructor
    raised. *)
Definition api_recommender (load : result unit) : option recommender :=
  match RAGRecommender load with
  | Ok self => Some self
  | Raise _ => None
  end.

(** The [detail] of an [HTTPException]: the fixed text of the two guards,
    or [str(e)] of the exception caught. *)
Inductive detail : Type :=
| NotLoaded
| StrOf (e : exn).

Inductive http (A : Type) : Type :=
| Http200 (body : A)
| Http500 (d : detail).
Arguments Http200 {A} body.
Arguments Http500 {A} d.

(** An instance of [RAGRecommender] is always true in a condition. *)
Definition health_check (app_recommender : option recommender)
  : http string :=
  match app_recommender with
  | None => Http500 NotLoaded
  | Some _ => Http200 "healthy"
  end.

Record AssessmentResponse : Type := {
  url : string;
  name : string;
  adaptive_support : string;
  description : string;
  duration : Z;
  remote_support : string;
  test_type : list string
}.

(** [AssessmentResponse] built from the entries of [meta]. What pydantic does with an [int] given for
    a [str] field and with a [str] given for an [int] field depends on its
    version: these two conversions are left open. A missing field, and a
    value of any other wrong type, is a [ValidationError], which is a
    [ValueError]; fields the model does not declare are ignored. *)
Section pydantic.

Variable str_of_int : Z → option string.
Variable int_of_str : string → option Z.

Definition str_field (meta : pydict) (key : string) : result string :=
  match meta !! key with
  | Some (VStr s) => Ok s
  | Some (VInt z) =>
      match str_of_int z with
      | Some s => Ok s
      | None => Raise ValueError
      end
  | Some (VList _) | None => Raise ValueError
  end.

Definition int_field (meta : pydict) (key : string) : result Z :=
  match meta !! key with
  | Some (VInt z) => Ok z
  | Some (VStr s) =>
      match int_of_str s with
      | Some z => Ok z
      | None => Raise ValueError
      end
  | Some (VList _) | None => Raise ValueError
  end.

Definition list_str_field (meta : pydict) (key : string)
  : result (list string) :=
  match meta !! key with
  | Some (VList l) => Ok l
  | Some (VStr _) | Some (VInt _) | None => Raise ValueError
  end.

Definition validate (meta : pydict) : result AssessmentResponse :=
  url ← str_field meta "url";
  name ← str_field meta "name";
  adaptive_support ← str_field meta "adaptive_support";
  description ← str_field meta "description";
  duration ← int_field meta "duration";
  remote_support ← str_field meta "remote_support";
  test_type ← list_str_field meta "test_type";
  Ok {| url := url; name := name; adaptive_support := adaptive_support;
        description := description; duration := duration;
        remote_support := remote_support; test_type := test_type |}.

(** [recommend_assessments]: [w] holds what the outside world answers to
    the calls [get_recommendations] makes for the query of the request. *)
Definition recommend_assessments (app_recommender : option recommender)
    (w : backend) : http (list AssessmentResponse) :=
  match app_recommender with
  | None => Http500 NotLoaded
  | Some self =>
      match results ← get_recommendations self w default_max_results;
            mapM validate (records results) with
      | Ok formatted_results => Http200 formatted_results
      | Raise e => Http500 (StrOf e)
      end
  end.

End pydantic.

(** The response record of a row of the data frame. *)
Definition assessment_of_row (r : row) : AssessmentResponse :=
  {| url := row_url r; name := row_name r;
     adaptive_support := row_adaptive_support r;
     description := row_description r;
     duration := default (-1) (row_duration r);
     remote_support := row_remote_support r;
     test_type := row_test_type r |}.

(** ** [run_predictions.py] *)

(** The loop over the queries, each with what the outside world answers to
    its calls. An exception of [get_recommendations], or of [rec['url']],
    is not caught. *)
Fixpoint prediction_rows (self : recommender)
    (queries : list (string * backend))
    (submission_rows : list (string * pyval))
  : result (list (string * pyval)) :=
  match queries with
  | [] => Ok submission_rows
  | (query, w) :: queries' =>
      recommendations ← get_recommendations self w default_max_results;
      match recommendations.1 with
      | [] => prediction_rows self queries' submission_rows
      | _ :: _ =>
          rows ← mapM (λ rec, Assessment_url ← getitem rec "url";
                              Ok (query, Assessment_url))
                      (records recommendations);
          prediction_rows self queries' (submission_rows ++ rows)
      end
  end.

(** [main]: [Ok None] when no file is written, [Ok (Some rows)] for the
    rows of the file written. [test_set] is the outcome of reading the
    queries, [save] that of [to_csv]. *)
Definition predictions_main (test_set : result (list (string * backend)))
    (load : result unit) (save : result unit)
  : result (option (list (string * pyval))) :=
  match test_set with
  | Raise _ => Ok None
  | Ok queries =>
      match RAGRecommender load with
      | Raise _ => Ok None
      | Ok self =>
          submission_rows ← prediction_rows self queries [];
          match submission_rows with
          | [] => Ok None
          | _ :: _ =>
              match save with
              | Ok _ => Ok (Some submission_rows)
              | Raise _ => Ok None
              end
          end
      end
  end.

(** The rows one query contributes when all goes well. *)
Definition rows_of_query (query : string) (out : list ref * heap)
  : list (string * pyval) :=
  omap (λ rec, (query,.) <$> rec !! "url") (records out).

(** Two rows of the data frame, and two queries of a test set. *)
Definition java_8 : row :=
  {| row_name := "Java 8"; row_url := "https://www.shl.com/j8";
     row_description := "Tests Java 8.";
     row_test_type := ["Knowledge & Skills"];
     row_duration := None; row_adaptive_support := "No";
     row_remote_support := "Yes" |}.

Definition opq : row :=
  {| row_name := "OPQ"; row_url := "https://www.shl.com/opq";
     row_description := "A questionnaire.";
     row_test_type := ["Personality & Behavior"; "Competencies"];
     row_duration := Some 25; row_adaptive_support := "No";
     row_remote_support := "Yes" |}.

Definition two_rows : list row := [java_8; opq].

Definition good_query : string * backend :=
  ("java developer", world K_and_P (metadata <$> two_rows)).

Definition bad_query : string * backend :=
  ("???", world (JList []) (metadata <$> two_rows)).

(** * Properties *)

(** ** Interleaving *)

Section interleave_facts.
Context {A : Type}.
Implicit Types (lists : list (list A)) (l acc : list A) (i n : nat).

Lemma interleave_step_lookup i acc l :
  interleave_step i acc l = acc ++ option_list (l !! i).
Proof.
  unfold interleave_step. case_bool_decide as Hi.
  - destruct (l !! i); simpl; [done | by rewrite app_nil_r].
  - rewrite lookup_ge_None_2 by lia. simpl. by rewrite app_nil_r.
Qed.

Lemma inner_loop_round i lists acc :
  foldl (interleave_step i) acc lists = acc ++ round lists i.
Proof.
  revert acc. induction lists as [|l lists IH]; intros acc; simpl.
  - by rewrite app_nil_r.
  - rewrite IH, interleave_step_lookup, <- app_assoc. f_equal.
    unfold round. simpl. by destruct (l !! i).
Qed.

Lemma outer_loop_rounds lists acc (idxs : list nat) :
  foldl (λ interleaved i, foldl (interleave_step i) interleaved lists) acc idxs
  = acc ++ mjoin (round lists <$> idxs).
Proof.
  revert acc. induction idxs as [|i idxs IH]; intros acc; simpl.
  - by rewrite app_nil_r.
  - by rewrite IH, inner_loop_round, <- app_assoc.
Qed.

Lemma py_max_max_list (ns : list nat) :
  ns ≠ [] → py_max ns = Ok (max_list ns).
Proof.
  destruct ns as [|n ns]; [done | intros _]. simpl. f_equal.
  revert n. induction ns as [|m ns IH]; intros n; simpl; [lia |].
  rewrite IH. lia.
Qed.

Lemma interleave_rounds lists :
  lists ≠ [] →
  _interleave_lists lists = Ok (rounds lists (max_list (length <$> lists))).
Proof.
  intros Hne. unfold _interleave_lists.
  rewrite py_max_max_list by (by destruct lists).
  simpl. by rewrite outer_loop_rounds.
Qed.

Lemma round_nil_exhausted lists i : round lists i = [] ↔ exhausted lists i.
Proof.
  unfold round, exhausted. induction lists as [|l lists IH]; simpl.
  - split; [constructor | done].
  - destruct (l !! i) as [x|] eqn:Hl.
    + split; [done |]. intros H. inversion H as [|?? Hlen _]; subst.
      apply lookup_lt_Some in Hl. lia.
    + rewrite IH, Forall_cons. apply lookup_ge_None in Hl. tauto.
Qed.

Lemma exhausted_max_list lists i :
  exhausted lists i ↔ (max_list (length <$> lists) ≤ i)%nat.
Proof.
  unfold exhausted. induction lists as [|l lists IH]; csimpl.
  - split; [intros _; lia | constructor].
  - rewrite Forall_cons, IH. lia.
Qed.

Lemma round_S lists i : round lists (S i) = round (tail <$> lists) i.
Proof.
  unfold round. induction lists as [|l lists IH]; csimpl; [done |].
  rewrite IH. by destruct l.
Qed.

Lemma rounds_S lists n :
  rounds lists (S n) = round lists 0 ++ rounds (tail <$> lists) n.
Proof.
  unfold rounds. simpl. f_equal. rewrite <- fmap_S_seq, <- list_fmap_compose.
  f_equal. apply list_fmap_ext. intros _ i _. simpl. apply round_S.
Qed.

Lemma concat_heads_tails lists :
  mjoin lists ≡ₚ round lists 0 ++ mjoin (tail <$> lists).
Proof.
  induction lists as [|l lists IH]; simpl; [done |].
  destruct l as [|x l]; simpl; [done |].
  unfold round in *. simpl. constructor.
  rewrite IH. by rewrite !app_assoc, (Permutation_app_comm l).
Qed.

Lemma rounds_permutation n lists :
  exhausted lists n → rounds lists n ≡ₚ mjoin lists.
Proof.
  revert lists. induction n as [|n IH]; intros lists Hex.
  - unfold rounds. simpl. unfold exhausted in Hex.
    induction Hex as [|l lists Hl _ IHl]; simpl; [done |].
    destruct l; simpl in *; [done | lia].
  - rewrite rounds_S, concat_heads_tails. f_equiv. apply IH.
    unfold exhausted in *. rewrite Forall_fmap.
    eapply Forall_impl; [exact Hex |]. intros [|x l]; simpl; lia.
Qed.
End interleave_facts.

(** ** The ordered dict of buckets *)

Lemma od_get_set (d : odict) k v k' :
  od_get (od_set d k v) k' = if decide (k' = k) then Some v else od_get d k'.
Proof.
  induction d as [|[k0 v0] d IH]; simpl.
  - repeat case_decide; done.
  - destruct (decide (k = k0)) as [->|Hk]; simpl.
    + repeat case_decide; congruence.
    + rewrite IH. repeat case_decide; congruence.
Qed.

Lemma od_get_empty_buckets names n :
  od_get (empty_buckets names) n
  = if decide (n ∈ names) then Some [] else None.
Proof.
  unfold empty_buckets.
  assert (∀ d, od_get (foldl (λ d name, od_set d name []) d names) n
               = if decide (n ∈ names) then Some [] else od_get d n) as H.
  { induction names as [|m names IH]; intros d; cbn [foldl].
    - rewrite decide_False; [done | apply not_elem_of_nil].
    - rewrite IH, od_get_set.
      destruct (decide (n ∈ names)) as [Hin|Hin].
      + rewrite decide_True; [done | by right].
      + destruct (decide (n = m)) as [->|Hne].
        * rewrite decide_True; [done | by left].
        * rewrite decide_False; [done |].
          intros [?|?]%elem_of_cons; done. }
  by rewrite H.
Qed.

(** ** Bucketing *)

Lemma first_matching_split names s n :
  first_matching names s = Some n →
  ∃ before after,
    names = before ++ n :: after
    ∧ PyStr.contains n s = true
    ∧ Forall (λ m, PyStr.contains m s = false) before.
Proof.
  unfold first_matching. induction names as [|m names IH]; simpl; [done |].
  destruct (PyStr.contains m s) eqn:Hm.
  - intros [= ->]. by exists [], names.
  - intros (before & after & -> & Hn & Hb)%IH.
    exists (m :: before), after. by repeat split; [| constructor].
Qed.

Lemma first_matching_elem names s n :
  first_matching names s = Some n → n ∈ names.
Proof. intros (? & ? & -> & _)%first_matching_split. set_solver. Qed.

Lemma scan_type_names_first_matching d meta s names ranked_lists :
  d !! "test_type" = Some (VStr s) →
  (∀ n, n ∈ names → is_Some (od_get ranked_lists n)) →
  scan_type_names d meta names ranked_lists
  = Ok match first_matching names s with
       | Some n => od_set ranked_lists n (bucket ranked_lists n ++ [meta])
       | None => ranked_lists
       end.
Proof.
  intros Hd. unfold first_matching, getitem.
  induction names as [|m names IH]; intros Hkeys; simpl; [done |].
  unfold getitem. rewrite Hd. simpl.
  destruct (PyStr.contains m s) eqn:Hm; simpl.
  - unfold od_append, bucket.
    destruct (Hkeys m) as [b ->]; [set_solver | done].
  - apply IH. intros n Hn. apply Hkeys. set_solver.
Qed.

Lemma bucket_loop_filter h names metas ranked_lists :
  Forall (λ r, is_Some (test_type_str h r)) metas →
  (∀ n, n ∈ names → is_Some (od_get ranked_lists n)) →
  ∃ ranked_lists',
    bucket_loop h names metas ranked_lists = Ok ranked_lists'
    ∧ ∀ n, od_get ranked_lists' n
           = (λ b, b ++ filter (λ r, chosen h names r = Some n) metas)
               <$> od_get ranked_lists n.
Proof.
  intros Hwf. revert ranked_lists.
  induction Hwf as [|meta metas [s Hs] _ IH]; intros ranked_lists Hkeys; simpl.
  - exists ranked_lists. split; [done |]. intros n.
    destruct (od_get ranked_lists n); simpl; [by rewrite app_nil_r | done].
  - unfold test_type_str in Hs. unfold deref.
    destruct (h !! meta) as [d|] eqn:Hd; simpl in Hs; [| done].
    destruct (d !! "test_type") as [[s'| |]|] eqn:Hv; simplify_eq/=.
    rewrite (scan_type_names_first_matching _ _ s) by done. simpl.
    assert (chosen h names meta = first_matching names s) as Hch.
    { unfold chosen, test_type_str. rewrite Hd. simpl. by rewrite Hv. }
    edestruct IH as (ranked_lists' & -> & Hget).
    2:{ eexists. split; [done |]. intros n. rewrite Hget.
        rewrite filter_cons, Hch.
        destruct (first_matching names s) as [m|] eqn:Hfm.
        - rewrite od_get_set. unfold bucket.
          destruct (Hkeys m) as [b Hb];
            [by eapply first_matching_elem |].
          rewrite Hb. simpl.
          destruct (decide (n = m)) as [->|Hne].
          + rewrite Hb. simpl. rewrite decide_True by done.
            by rewrite <- app_assoc.
          + rewrite decide_False by congruence. done.
        - rewrite decide_False by done. done. }
    intros n Hn. destruct (first_matching names s) as [m|]; [| by apply Hkeys].
    rewrite od_get_set. case_decide; [done | by apply Hkeys].
Qed.

Lemma bucket_candidates_filter h names metas :
  Forall (λ r, is_Some (test_type_str h r)) metas →
  ∃ ranked_lists,
    bucket_candidates h names metas = Ok ranked_lists
    ∧ ∀ n, od_get ranked_lists n
           = if decide (n ∈ names)
             then Some (filter (λ r, chosen h names r = Some n) metas)
             else None.
Proof.
  intros Hwf. unfold bucket_candidates.
  destruct (bucket_loop_filter h names metas (empty_buckets names) Hwf)
    as (ranked_lists & Hloop & Hget).
  - intros n Hn. rewrite od_get_empty_buckets, decide_True; done.
  - exists ranked_lists. split; [done |]. intros n.
    rewrite Hget, od_get_empty_buckets. by case_decide.
Qed.

(** ** First occurrences *)

Lemma filter_all {A : Type} (P : A → Prop) `{!∀ x, Decision (P x)}
    (l : list A) :
  (∀ x, P x) → filter P l = l.
Proof.
  intros HP. induction l as [|x l IH]; [done |].
  by rewrite filter_cons_True, IH.
Qed.

Section first_occurrences_facts.
Context {A K : Type} `{EqDecision K} (key : A → K).
Implicit Types (l : list A) (x : A).

Lemma first_occurrences_elem l x :
  x ∈ first_occurrences key l → x ∈ l.
Proof.
  revert x. induction l as [|y l IH]; intros x; simpl; [done |].
  intros [->|[_ Hx]%list_elem_of_filter]%elem_of_cons; [by left |].
  right. by apply IH.
Qed.

Lemma first_occurrences_keys l x :
  x ∈ l → key x ∈ key <$> first_occurrences key l.
Proof.
  induction l as [|y l IH]; [by intros ?%elem_of_nil |].
  intros [->|Hx]%elem_of_cons; simpl; [by left |].
  destruct (decide (key x = key y)) as [->|Hne]; [by left |].
  right. apply IH in Hx. apply list_elem_of_fmap in Hx as (z & Hz & Hin).
  apply list_elem_of_fmap. exists z. split; [done |].
  apply list_elem_of_filter. split; [congruence | done].
Qed.

Lemma first_occurrences_sublist l : first_occurrences key l `sublist_of` l.
Proof.
  induction l as [|x l IH]; simpl; [done |].
  apply sublist_skip. etrans; [apply sublist_filter | done].
Qed.

Lemma first_occurrences_NoDup l : NoDup (key <$> first_occurrences key l).
Proof.
  induction l as [|x l IH]; csimpl; [constructor |].
  constructor.
  - intros (y & Hy & Hin)%list_elem_of_fmap.
    apply list_elem_of_filter in Hin as [Hne _]. congruence.
  - eapply sublist_NoDup; [exact IH |]. apply fmap_sublist, sublist_filter.
Qed.

(** Every kept item is the first of the input with its key. *)
Lemma first_occurrences_first l x :
  x ∈ first_occurrences key l →
  ∃ l1 l2, l = l1 ++ x :: l2 ∧ key x ∉ key <$> l1.
Proof.
  induction l as [|y l IH]; simpl; [by intros ?%elem_of_nil |].
  intros [->|Hx]%elem_of_cons.
  - exists [], l. split; [done | apply not_elem_of_nil].
  - apply list_elem_of_filter in Hx as [Hne Hx].
    destruct (IH Hx) as (l1 & l2 & -> & Hfresh).
    exists (y :: l1), l2. split; [done |].
    rewrite fmap_cons. intros [?|?]%elem_of_cons; done.
Qed.

End first_occurrences_facts.

Lemma first_occurrences_length {A : Type} `{Countable K} (key : A → K)
    (l : list A) :
  length (first_occurrences key l)
  = size (list_to_set (C:=gset K) (key <$> l)).
Proof.
  rewrite <- (length_fmap key), <- (size_list_to_set (C:=gset K))
    by apply first_occurrences_NoDup.
  f_equal. apply set_eq. intros k. rewrite !elem_of_list_to_set. split.
  - intros (x & -> & Hx)%list_elem_of_fmap.
    by eapply list_elem_of_fmap_2, first_occurrences_elem.
  - intros (x & -> & Hx)%list_elem_of_fmap. by apply first_occurrences_keys.
Qed.


(** ** The de-duplication loop *)

Lemma normalized_other (d : pydict) (key : string) :
  key ≠ "test_type" → normalized d !! key = d !! key.
Proof.
  intros Hne. unfold normalized.
  destruct (d !! "test_type") as [[s| |]|]; try done.
  by rewrite lookup_insert_ne.
Qed.

Lemma normalize_kept_lookup kept (h : heap) r :
  normalize_kept kept h !! r
  = (λ d, if decide (r ∈ kept) then normalized d else d) <$> h !! r.
Proof. unfold normalize_kept. by rewrite list_lookup_imap. Qed.

Lemma normalize_kept_nil (h : heap) : normalize_kept [] h = h.
Proof.
  apply list_eq. intros r. rewrite normalize_kept_lookup.
  by destruct (h !! r).
Qed.

Lemma url_key_normalize_kept kept (h : heap) r :
  url_key (normalize_kept kept h) r = url_key h r.
Proof.
  unfold url_key. rewrite normalize_kept_lookup.
  destruct (h !! r) as [d|]; simpl; [| done].
  case_decide; [| done]. by rewrite normalized_other.
Qed.

Lemma normalize_kept_snoc kept (h : heap) r d s :
  h !! r = Some d →
  d !! "test_type" = Some (VStr s) →
  r ∉ kept →
  <[r := <["test_type" := VList (PyStr.strip <$> PyStr.split_comma s)]> d]>
    (normalize_kept kept h)
  = normalize_kept (kept ++ [r]) h.
Proof.
  intros Hd Hs Hr. apply list_eq. intros i.
  destruct (decide (i = r)) as [->|Hne].
  - rewrite list_lookup_insert_eq.
    2:{ unfold normalize_kept. rewrite length_imap.
        by eapply lookup_lt_Some. }
    rewrite normalize_kept_lookup, Hd. simpl.
    rewrite decide_True by (apply elem_of_app; right; by left).
    unfold normalized. by rewrite Hs.
  - rewrite list_lookup_insert_ne by done.
    rewrite !normalize_kept_lookup. destruct (h !! i); simpl; [| done].
    f_equal. apply decide_ext. rewrite elem_of_app, list_elem_of_singleton.
    tauto.
Qed.

Lemma catalog_item_fields (d : pydict) :
  catalog_item d = true →
  ∃ u k s, d !! "url" = Some u ∧ py_hash u = Ok k
           ∧ d !! "test_type" = Some (VStr s).
Proof.
  unfold catalog_item.
  destruct (d !! "url") as [[u|z|]|]; try done;
    destruct (d !! "test_type") as [[s| |]|]; try done; intros _.
  - by exists (VStr u), (inl u), s.
  - by exists (VInt z), (inr z), s.
Qed.

Lemma dedup_loop_spec (h : heap) (limit : Z) (items : list ref) st :
  Forall (catalog_ref h) items →
  store st = normalize_kept (final_recommendations st) h →
  (∀ k, k ∈ seen_urls st
        ↔ Some k ∈ url_key h <$> final_recommendations st) →
  Z.of_nat (length (final_recommendations st)) < limit →
  ∃ st',
    dedup_loop limit items st = Ok st'
    ∧ final_recommendations st'
      = take (Z.to_nat limit)
          (final_recommendations st
           ++ filter (λ r, url_key h r ∉ url_key h <$> final_recommendations st)
                (first_occurrences (url_key h) items))
    ∧ store st' = normalize_kept (final_recommendations st') h.
Proof.
  intros Hwf. revert st.
  induction Hwf as [|x items (d0 & Hd0 & Hitem) _ IH];
    intros [kept seen hp] Hstore Hseen Hlen; simpl in *; subst hp.
  - eexists. split; [done |]. simpl. rewrite app_nil_r.
    split; [by rewrite take_ge by lia | done].
  - destruct (catalog_item_fields _ Hitem) as (u & k & s & Hu & Hk & Hs).
    assert (url_key h x = Some k) as Hkey.
    { unfold url_key. rewrite Hd0. simpl. rewrite Hu. simpl. by rewrite Hk. }
    unfold deref. rewrite normalize_kept_lookup, Hd0. simpl.
    unfold getitem at 1.
    assert ((if decide (x ∈ kept) then normalized d0 else d0) !! "url"
            = Some u) as ->.
    { case_decide; [| done]. by rewrite normalized_other. }
    simpl. rewrite Hk. simpl.
    case_bool_decide as Hin.
    + (* the url has been seen: the item is skipped *)
      simpl. rewrite bool_decide_false by lia.
      apply Hseen in Hin.
      destruct (IH {| final_recommendations := kept; seen_urls := seen;
                      store := normalize_kept kept h |})
        as (st' & Hrun & Hkept & Hst');
        [done | done | done |].
      exists st'. split; [done |]. split; [| done].
      rewrite Hkept. simpl.
      rewrite filter_cons_False by (rewrite Hkey; tauto).
      do 2 f_equal. symmetry. apply list_filter_filter_l.
      intros y Hy. congruence.
    + (* a new url: the record is normalized and kept *)
      assert (Some k ∉ url_key h <$> kept) as Hfresh
        by (by rewrite <- Hseen).
      assert (x ∉ kept) as Hx.
      { intros Hx. apply Hfresh. rewrite <- Hkey.
        by apply list_elem_of_fmap_2. }
      rewrite decide_False by done.
      unfold keep, getitem. rewrite Hs. simpl.
      rewrite (normalize_kept_snoc _ _ _ _ _ Hd0 Hs Hx).
      rewrite filter_cons_True by (by rewrite Hkey).
      case_bool_decide as Hstop.
      * eexists. split; [done |]. simpl.
        rewrite length_app in Hstop. simpl in Hstop.
        split; [| done].
        match goal with
        | |- _ = take _ (_ ++ _ :: ?rest) =>
            trans (take (Z.to_nat limit) ((kept ++ [x]) ++ rest));
              [| by rewrite <- app_assoc]
        end.
        rewrite take_app_length'; [done | rewrite length_app; simpl; lia].
      * rewrite length_app in Hstop. simpl in Hstop.
        destruct (IH {| final_recommendations := kept ++ [x];
                        seen_urls := seen ∪ {[k]};
                        store := normalize_kept (kept ++ [x]) h |})
          as (st' & Hrun & Hkept & Hst'); simpl.
        { done. }
        { intros k'. rewrite elem_of_union, elem_of_singleton, Hseen.
          rewrite fmap_app, elem_of_app. simpl.
          rewrite list_elem_of_singleton, Hkey.
          split; (intros [?|?]; [by left | right; congruence]). }
        { rewrite length_app. simpl. lia. }
        exists st'. split; [done |]. split; [| done].
        rewrite Hkept. simpl. rewrite <- app_assoc. simpl.
        do 3 f_equal. rewrite list_filter_filter.
        apply list_filter_iff. intros y.
        rewrite fmap_app, elem_of_app. simpl.
        rewrite list_elem_of_singleton. tauto.
Qed.

Lemma dedup_loop_nonpositive_limit (limit : Z) (items : list ref) (h : heap) :
  limit ≤ 0 →
  dedup_loop limit items (dedup_init h) = dedup_loop 1 items (dedup_init h).
Proof.
  intros Hlimit. destruct items as [|x items]; simpl; [done |].
  destruct (deref h x) as [d|]; simpl; [| done].
  destruct (getitem d "url") as [u|]; simpl; [| done].
  destruct (py_hash u) as [k|]; simpl; [| done].
  rewrite bool_decide_false by apply not_elem_of_empty.
  unfold keep. destruct (getitem d "test_type") as [v|]; simpl; [| done].
  destruct (split_test_type v) as [parts|]; simpl; [| done].
  rewrite !bool_decide_true by lia. done.
Qed.

(** The loop of step 6 from its initial state: the first occurrences of
    each url, cut at the limit (at one item when the limit is below one,
    the test being made after the append). *)
Lemma dedup_from_init (h : heap) (limit : Z) (items : list ref) :
  Forall (catalog_ref h) items →
  ∃ st,
    dedup_loop limit items (dedup_init h) = Ok st
    ∧ final_recommendations st
      = take (Z.to_nat (Z.max 1 limit)) (first_occurrences (url_key h) items)
    ∧ store st = normalize_kept (final_recommendations st) h.
Proof.
  intros Hwf.
  assert (∃ st,
    dedup_loop (Z.max 1 limit) items (dedup_init h) = Ok st
    ∧ final_recommendations st
      = take (Z.to_nat (Z.max 1 limit)) (first_occurrences (url_key h) items)
    ∧ store st = normalize_kept (final_recommendations st) h) as Hmax.
  { destruct (dedup_loop_spec h (Z.max 1 limit) items (dedup_init h) Hwf)
      as (st & Hrun & Hkept & Hstore); simpl.
    - by rewrite normalize_kept_nil.
    - intros k. split; [by intros ?%not_elem_of_empty |].
      by intros ?%elem_of_nil.
    - lia.
    - exists st. split; [done |]. split; [| done].
      rewrite Hkept. simpl. f_equal. apply filter_all.
      intros y. apply not_elem_of_nil. }
  destruct (decide (limit ≤ 0)) as [Hle|Hgt].
  - rewrite dedup_loop_nonpositive_limit by done.
    replace (Z.max 1 limit) with 1 in * by lia. done.
  - replace (Z.max 1 limit) with limit in * by lia. done.
Qed.

(** ** The keys of the bucket dict *)

Lemma od_set_keys (d : odict) k v :
  (od_set d k v).*1 = if decide (k ∈ d.*1) then d.*1 else d.*1 ++ [k].
Proof.
  induction d as [|[k0 v0] d IH]; csimpl.
  - done.
  - destruct (decide (k = k0)) as [->|Hne]; csimpl.
    + by rewrite decide_True by (by left).
    + rewrite IH. destruct (decide (k ∈ d.*1)) as [Hin|Hin].
      * by rewrite decide_True by (by right).
      * rewrite decide_False; [done |].
        intros [?|?]%elem_of_cons; done.
Qed.

Lemma od_get_is_Some (d : odict) k : is_Some (od_get d k) ↔ k ∈ d.*1.
Proof.
  induction d as [|[k0 v0] d IH]; csimpl.
  - split; [by intros [? ?] | by intros ?%elem_of_nil].
  - rewrite elem_of_cons. case_decide as Hk.
    + split; [by left | by eexists].
    + rewrite IH. split; [by right | by intros [?|?]].
Qed.

Lemma empty_buckets_keys names :
  (empty_buckets names).*1 = first_occurrences id names.
Proof.
  unfold empty_buckets.
  assert (∀ d : odict,
    (foldl (λ d name, od_set d name []) d names).*1
    = d.*1 ++ filter (λ n, n ∉ d.*1) (first_occurrences id names)) as H.
  { induction names as [|m names IH]; intros d; cbn [foldl first_occurrences].
    - by rewrite filter_nil, app_nil_r.
    - rewrite IH, od_set_keys.
      destruct (decide (m ∈ d.*1)) as [Hin|Hin].
      + rewrite filter_cons_False by tauto. f_equal.
        symmetry. apply list_filter_filter_l. intros n Hn. unfold id.
        by intros ->.
      + rewrite filter_cons_True by done. rewrite <- app_assoc. simpl.
        do 2 f_equal. rewrite list_filter_filter. apply list_filter_iff.
        intros n. rewrite elem_of_app, list_elem_of_singleton. unfold id.
        tauto. }
  rewrite H. simpl. apply filter_all. intros n. apply not_elem_of_nil.
Qed.

Lemma od_from_keys (d : odict) (f : string → list ref) :
  NoDup d.*1 →
  (∀ n, n ∈ d.*1 → od_get d n = Some (f n)) →
  d = (λ n, (n, f n)) <$> d.*1.
Proof.
  induction d as [|[k v] d IH]; csimpl; [done |].
  intros [Hk Hnd]%NoDup_cons Hget. f_equal.
  - specialize (Hget k (list_elem_of_here _ _)).
    rewrite decide_True in Hget by done. congruence.
  - apply IH; [done |]. intros n Hn.
    specialize (Hget n (list_elem_of_further _ _ _ Hn)).
    rewrite decide_False in Hget by (by intros ->). done.
Qed.

Lemma scan_type_names_keys d meta names (ranked_lists ranked_lists' : odict) :
  scan_type_names d meta names ranked_lists = Ok ranked_lists' →
  ranked_lists'.*1 = ranked_lists.*1.
Proof.
  induction names as [|m names IH]; simpl; [by intros [= ->] |].
  destruct (getitem d "test_type") as [v|]; simpl; [| done].
  destruct (py_in m v) as [[|]|]; simpl; [| done | done].
  unfold od_append. destruct (od_get ranked_lists m) as [b|] eqn:Hb; [| done].
  intros [= <-]. rewrite od_set_keys, decide_True; [done |].
  apply od_get_is_Some. by eexists.
Qed.

Lemma bucket_loop_keys h names metas (ranked_lists ranked_lists' : odict) :
  bucket_loop h names metas ranked_lists = Ok ranked_lists' →
  ranked_lists'.*1 = ranked_lists.*1.
Proof.
  revert ranked_lists. induction metas as [|meta metas IH];
    intros ranked_lists; simpl; [by intros [= ->] |].
  destruct (deref h meta) as [d|]; simpl; [| done].
  destruct (scan_type_names d meta names ranked_lists) as [r|] eqn:Hscan;
    simpl; [| done].
  intros ->%IH. by eapply scan_type_names_keys.
Qed.

(** Step 4 in closed form. *)
Lemma bucket_candidates_closed h names metas :
  Forall (λ r, is_Some (test_type_str h r)) metas →
  bucket_candidates h names metas
  = Ok ((λ n, (n, filter (λ r, chosen h names r = Some n) metas))
          <$> first_occurrences id names).
Proof.
  intros Hwf.
  destruct (bucket_candidates_filter h names metas Hwf)
    as (ranked_lists & Hrun & Hget).
  rewrite Hrun. f_equal.
  assert (ranked_lists.*1 = first_occurrences id names) as Hkeys.
  { rewrite <- empty_buckets_keys. by eapply bucket_loop_keys. }
  rewrite <- Hkeys. apply od_from_keys.
  - rewrite Hkeys, <- (list_fmap_id (first_occurrences id names)).
    apply first_occurrences_NoDup.
  - intros n Hn. rewrite Hget, decide_True; [done |].
    rewrite Hkeys in Hn. by eapply first_occurrences_elem.
Qed.

(** With no inferred name the inner loop never runs and no bucket exists. *)
Lemma bucket_candidates_no_name (metas : list pydict) :
  bucket_candidates metas [] (seq 0 (length metas)) = Ok [].
Proof.
  unfold bucket_candidates, empty_buckets. simpl.
  assert (∀ refs, Forall (λ r, (r < length metas)%nat) refs →
                  bucket_loop metas [] refs [] = Ok []) as H.
  { intros refs Hrefs. induction Hrefs as [|r refs Hr _ IH]; simpl; [done |].
    unfold deref. destruct (lookup_lt_is_Some_2 metas r Hr) as [d ->].
    simpl. done. }
  apply H, Forall_forall. intros r Hr%elem_of_seq. lia.
Qed.

Lemma catalog_item_test_type_str (metas : list pydict) r :
  catalog_ref metas r → is_Some (test_type_str metas r).
Proof.
  intros (d & Hd & Hitem).
  destruct (catalog_item_fields _ Hitem) as (u & k & s & _ & _ & Hs).
  exists s. unfold test_type_str. rewrite Hd. simpl. by rewrite Hs.
Qed.

Lemma catalog_items_refs (metas : list pydict) :
  Forall (λ d, catalog_item d = true) metas →
  Forall (catalog_ref metas) (seq 0 (length metas)).
Proof.
  intros Hwf. apply Forall_forall. intros r Hr%elem_of_seq.
  destruct (lookup_lt_is_Some_2 metas r) as [d Hd]; [lia |].
  exists d. split; [done |]. by eapply (Forall_lookup_1 _ _ _ _ Hwf).
Qed.

Lemma buckets_of_elem names (metas : list pydict) bucket r :
  bucket ∈ buckets_of names metas → r ∈ bucket →
  (r < length metas)%nat ∧ ∃ n, n ∈ names ∧ chosen metas names r = Some n.
Proof.
  unfold buckets_of. intros (n & -> & Hn)%list_elem_of_fmap.
  intros [Hch Hr%elem_of_seq]%list_elem_of_filter.
  split; [lia |]. exists n. split; [| done].
  by eapply first_occurrences_elem.
Qed.

Lemma rounds_elem {A : Type} (lists : list (list A)) x :
  x ∈ rounds lists (max_list (length <$> lists)) ↔ ∃ l, l ∈ lists ∧ x ∈ l.
Proof.
  rewrite (rounds_permutation _ lists) by (by apply exhausted_max_list).
  rewrite list_elem_of_join. split; intros (l & ? & ?); by exists l.
Qed.

(** Steps 4 to 6 in closed form. *)
Lemma rank_spec names (metas : list pydict) (limit : Z) :
  names ≠ [] →
  Forall (λ d, catalog_item d = true) metas →
  rank names metas limit
  = Ok (ranking names metas limit,
        normalize_kept (ranking names metas limit) metas).
Proof.
  intros Hne Hwf. unfold rank.
  pose proof (catalog_items_refs metas Hwf) as Hrefs.
  rewrite bucket_candidates_closed
    by (eapply Forall_impl; [exact Hrefs |];
        apply catalog_item_test_type_str).
  simpl. rewrite <- list_fmap_compose.
  change (_ <$> first_occurrences id names) with (buckets_of names metas).
  rewrite interleave_rounds.
  2:{ unfold buckets_of. destruct names; [done |]. simpl. done. }
  simpl.
  edestruct (dedup_from_init metas limit) as (st & -> & Hkept & Hstore).
  2:{ simpl. unfold ranking. simpl. by rewrite Hstore, Hkept. }
  apply Forall_forall. intros r (l & Hl & Hr)%rounds_elem.
  destruct (buckets_of_elem _ _ _ _ Hl Hr) as [Hlt _].
  rewrite Forall_forall in Hrefs. apply Hrefs, elem_of_seq. lia.
Qed.

Lemma rank_no_name (metas : list pydict) (limit : Z) :
  rank [] metas limit = Raise ValueError.
Proof. unfold rank. by rewrite bucket_candidates_no_name. Qed.

Lemma ranking_catalog_ref names (metas : list pydict) limit r :
  r ∈ ranking names metas limit →
  (r < length metas)%nat ∧ ∃ n, n ∈ names ∧ chosen metas names r = Some n.
Proof.
  unfold ranking. intros Hr.
  apply subseteq_take in Hr.
  apply first_occurrences_elem, rounds_elem in Hr as (l & Hl & Hr).
  by eapply buckets_of_elem.
Qed.

Lemma ranking_keys_NoDup names (metas : list pydict) limit :
  NoDup (url_key metas <$> ranking names metas limit).
Proof.
  unfold ranking. eapply sublist_NoDup;
    [| apply fmap_sublist, sublist_take].
  apply first_occurrences_NoDup.
Qed.

(** ** The scenarios of the specification *)

(** K, P, K, P, K, P, then the two K that are left. *)
Example scenario_balanced :
  get_recommendations ready (world K_and_P five_K_three_P)
    default_max_results
  = Ok ([0; 5; 1; 6; 2; 7; 3; 4]%nat,
        normalize_kept [0; 5; 1; 6; 2; 7; 3; 4]%nat five_K_three_P).
Proof. reflexivity. Qed.

Example scenario_no_match :
  get_recommendations ready
    (world K_and_P [item "s1" "Simulations"; item "s2" "Competencies"])
    default_max_results
  = Ok ([], [item "s1" "Simulations"; item "s2" "Competencies"]).
Proof. reflexivity. Qed.

(** Two candidates with the url "u1": the one that arrived first survives. *)
Example scenario_same_url :
  get_recommendations ready (world K_and_P sample_metas) default_max_results
  = Ok ([0; 1]%nat, normalize_kept [0; 1]%nat sample_metas).
Proof. reflexivity. Qed.

(** With [max_results = 0] one record is returned all the same. *)
Example scenario_limit_zero :
  get_recommendations ready (world K_and_P sample_metas) 0
  = Ok ([0%nat], normalize_kept [0%nat] sample_metas).
Proof. reflexivity. Qed.

Example split_test_type_example :
  split_test_type (VStr "Knowledge & Skills,  Simulations ,")
  = Ok ["Knowledge & Skills"; "Simulations"; ""].
Proof. reflexivity. Qed.

(** ** The query as a whole *)

Lemma get_recommendations_ready self w max_results keys names :
  client self = true → embed_model self = true →
  _analyze_query_with_llm (llm w) = Ok keys →
  required_type_names keys = Ok names →
  encode w = Ok () →
  get_recommendations self w max_results = search_and_rank w names max_results.
Proof.
  intros Hc He Hkeys Hnames Henc. unfold get_recommendations.
  rewrite Hc, He, Hkeys. simpl. rewrite Hnames. simpl. by rewrite Henc.
Qed.

Lemma get_recommendations_inv self w max_results out :
  client self = true → embed_model self = true →
  get_recommendations self w max_results = Ok out →
  ∃ names, search_and_rank w names max_results = Ok out.
Proof.
  intros Hc He. unfold get_recommendations. rewrite Hc, He. simpl.
  destruct (_analyze_query_with_llm (llm w)) as [keys|]; simpl; [| done].
  destruct (required_type_names keys) as [names|]; simpl; [| done].
  destruct (encode w) as [[]|]; simpl; [| done].
  intros Hrun. by exists names.
Qed.

Lemma rank_inv names (metas : list pydict) limit out :
  Forall (λ d, catalog_item d = true) metas →
  rank names metas limit = Ok out →
  names ≠ []
  ∧ out = (ranking names metas limit,
           normalize_kept (ranking names metas limit) metas).
Proof.
  intros Hwf. destruct names as [|n names].
  - by rewrite rank_no_name.
  - rewrite rank_spec by done. by intros [= <-].
Qed.

Lemma required_type_names_unknown keys :
  Forall (λ key, TEST_TYPE_MAP_get key = Ok None) keys →
  required_type_names keys = Ok [].
Proof.
  induction 1 as [|key keys Hkey _ IH]; simpl; [done |].
  rewrite Hkey. simpl. by rewrite IH.
Qed.

(** ** The records the caller receives *)

Lemma ranking_record names (metas : list pydict) limit r :
  Forall (λ d, catalog_item d = true) metas →
  r ∈ ranking names metas limit →
  ∃ d0 s,
    metas !! r = Some d0
    ∧ d0 !! "test_type" = Some (VStr s)
    ∧ normalize_kept (ranking names metas limit) metas !! r
      = Some (<["test_type" := VList (PyStr.strip <$> PyStr.split_comma s)]> d0).
Proof.
  intros Hwf Hr. destruct (ranking_catalog_ref _ _ _ _ Hr) as [Hlt _].
  destruct (lookup_lt_is_Some_2 metas r Hlt) as [d0 Hd0].
  pose proof (Forall_lookup_1 _ _ _ _ Hwf Hd0) as Hitem. simpl in Hitem.
  destruct (catalog_item_fields _ Hitem) as (u & k & s & _ & _ & Hs).
  exists d0, s. split; [done |]. split; [done |].
  rewrite normalize_kept_lookup, Hd0. simpl.
  rewrite decide_True by done. unfold normalized. by rewrite Hs.
Qed.

Lemma stored_item_catalog_item (metas : list pydict) :
  Forall (λ d, stored_item d = true) metas →
  Forall (λ d, catalog_item d = true) metas.
Proof.
  intros Hstored. eapply Forall_impl; [exact Hstored |].
  intros d. unfold stored_item. by intros [_ ?]%andb_true_iff.
Qed.

Lemma records_lookup (out : list ref * heap) d :
  d ∈ records out ↔ ∃ r, r ∈ out.1 ∧ out.2 !! r = Some d.
Proof. unfold records. apply list_elem_of_omap. Qed.

Lemma records_length (out : list ref * heap) :
  Forall (λ r, is_Some (out.2 !! r)) out.1 →
  length (records out) = length out.1.
Proof.
  unfold records. induction 1 as [|r l [d Hd] _ IH]; csimpl; [done |].
  rewrite Hd. simpl. by rewrite IH.
Qed.

(** * The claims *)

(** C1 (as amended). For every sequence of catalog items and every limit of
    at least one, the de-duplicate-and-truncate loop returns exactly
    min(limit, number of distinct urls) items, no url twice, and the kept
    items are a subsequence of the input: the leading first occurrences. *)
Theorem dedup_keeps_first_occurrences (h : heap) (items : list ref) (limit : Z) :
  1 ≤ limit →
  Forall (catalog_ref h) items →
  dedup_truncate_claim h items limit.
Proof.
  intros Hlimit Hwf.
  destruct (dedup_from_init h limit items Hwf) as (st & Hrun & Hkept & Hstore).
  replace (Z.max 1 limit) with limit in Hkept by lia.
  exists st. split; [done |]. rewrite Hstore, Hkept. repeat split.
  - rewrite length_take, first_occurrences_length. lia.
  - rewrite (list_fmap_ext (url_key _) (url_key h))
      by (intros; apply url_key_normalize_kept).
    eapply sublist_NoDup; [| apply fmap_sublist, sublist_take].
    apply first_occurrences_NoDup.
  - etrans; [apply sublist_take | apply first_occurrences_sublist].
  - apply prefix_take.
Qed.

Lemma dedup_keeps_first_occurrences_witness :
  dedup_truncate_claim sample_metas [0; 3; 1; 2]%nat 2.
Proof.
  apply dedup_keeps_first_occurrences; [lia |].
  repeat constructor; eexists; (split; [reflexivity | reflexivity]).
Defined.

(** C1, the failing case: with a limit of zero the loop still keeps the
    first item, the length being tested after the append. *)
Lemma dedup_limit_zero_keeps_one :
  ¬ dedup_truncate_claim [item "u1" "Knowledge & Skills"] [0%nat] 0.
Proof.
  intros (st & Hrun & Hlen & _). vm_compute in Hrun.
  injection Hrun as <-. vm_compute in Hlen. discriminate.
Qed.

(** C2, the failing input: with no bucket at all, [max] has nothing to take
    the maximum of and the operation raises [ValueError] where the claim
    has the empty sequence. The program produces this input itself: a
    classifier reply that is the empty list, or that holds unknown codes
    only, leaves no category, hence no bucket, and the query ends with
    that exception; a query none of whose candidates matches a category is
    answered with the empty list. *)
Lemma interleave_no_bucket_raises :
  @_interleave_lists ref [] = Raise ValueError
  ∧ (¬ ∃ out, @_interleave_lists ref [] = Ok out)
  ∧ get_recommendations ready (world (JList []) sample_metas)
      default_max_results = Raise ValueError
  ∧ get_recommendations ready (world (JList [JStr "X"]) sample_metas)
      default_max_results = Raise ValueError
  ∧ get_recommendations ready
      (world K_and_P [item "s1" "Simulations"; item "s2" "Competencies"])
      default_max_results
    = Ok ([], [item "s1" "Simulations"; item "s2" "Competencies"]).
Proof.
  split; [done |]. split; [by intros [out ?] |].
  split; [reflexivity |]. split; reflexivity.
Qed.

(** C3. The candidates, in arrival order, are put each in the bucket of the
    first inferred category (in the order of the inferred list) whose name
    its [test_type] contains, and the scan stops there: a bucket holds, in
    arrival order, exactly the candidates that chose it, so no candidate is
    in two buckets; one that matches no inferred category is in no bucket
    and is not in the list [get_recommendations] goes on to return. *)
Theorem bucketing_first_match names (metas : list pydict) :
  Forall (λ d, catalog_item d = true) metas →
  ∃ ranked_lists,
    bucket_candidates metas names (seq 0 (length metas)) = Ok ranked_lists
    ∧ (∀ n, n ∈ names →
         od_get ranked_lists n
         = Some (filter (λ r, chosen metas names r = Some n)
                        (seq 0 (length metas))))
    ∧ (∀ n, n ∉ names → od_get ranked_lists n = None)
    ∧ (∀ r n1 n2,
         r ∈ bucket ranked_lists n1 → r ∈ bucket ranked_lists n2 → n1 = n2)
    ∧ (∀ r n, chosen metas names r = None → r ∉ bucket ranked_lists n)
    ∧ (∀ self w keys rest max_results out,
         _analyze_query_with_llm (llm w) = Ok keys →
         required_type_names keys = Ok names →
         query w = Ok (Some (metas :: rest)) →
         get_recommendations self w max_results = Ok out →
         client self = true → embed_model self = true →
         ∀ r, r ∈ out.1 → ∃ n, n ∈ names ∧ chosen metas names r = Some n).
Proof.
  intros Hwf.
  destruct (bucket_candidates_filter metas names (seq 0 (length metas)))
    as (ranked_lists & Hrun & Hget).
  { eapply Forall_impl; [by apply catalog_items_refs |].
    apply catalog_item_test_type_str. }
  assert (∀ r n, r ∈ bucket ranked_lists n → chosen metas names r = Some n)
    as Hbucket.
  { intros r n. unfold bucket. rewrite Hget.
    case_decide; simpl; [| by intros ?%elem_of_nil].
    by intros [? _]%list_elem_of_filter. }
  exists ranked_lists. split; [done |]. repeat split.
  - intros n Hn. by rewrite Hget, decide_True.
  - intros n Hn. by rewrite Hget, decide_False.
  - intros r n1 n2 H1%Hbucket H2%Hbucket. congruence.
  - intros r n Hnone Hr%Hbucket. congruence.
  - intros self w keys rest max_results out Hkeys Hnames Hq Hout Hc He.
    unfold get_recommendations in Hout.
    rewrite Hc, He, Hkeys in Hout. simpl in Hout.
    rewrite Hnames in Hout. simpl in Hout.
    destruct (encode w) as [[]|]; simpl in Hout; [| done].
    unfold search_and_rank in Hout. rewrite Hq in Hout.
    apply rank_inv in Hout as [_ ->]; [| done].
    intros r Hr. by eapply ranking_catalog_ref.
Qed.

Lemma bucketing_first_match_witness :
  ∃ ranked_lists,
    bucket_candidates sample_metas
      ["Knowledge & Skills"; "Personality & Behavior"] [0; 1; 2; 3]%nat
    = Ok ranked_lists
    ∧ od_get ranked_lists "Knowledge & Skills" = Some [0; 1]%nat
    ∧ od_get ranked_lists "Personality & Behavior" = Some [3]%nat
    ∧ (2%nat ∉ bucket ranked_lists "Knowledge & Skills")
    ∧ (2%nat ∉ bucket ranked_lists "Personality & Behavior").
Proof.
  destruct (bucketing_first_match
              ["Knowledge & Skills"; "Personality & Behavior"] sample_metas)
    as (ranked_lists & Hrun & Hget & _ & _ & Hnone & _).
  { by repeat constructor. }
  exists ranked_lists. split; [exact Hrun |]. split; [| split].
  - rewrite Hget by (by left). reflexivity.
  - rewrite Hget by (right; by left). reflexivity.
  - split; apply Hnone; reflexivity.
Defined.

(** The branches of category inference: it never raises; it returns K, P, A
    when no classifier is configured and K, P when the call raises or the
    reply is not a list; the one test on a reply is that it is a list. *)
Theorem classifier_fallback (llm : option (result json)) :
  ∃ keys,
    _analyze_query_with_llm llm = Ok keys
    ∧ (llm = None → keys = [JStr "K"; JStr "P"; JStr "A"])
    ∧ (∀ e, llm = Some (Raise e) → keys = [JStr "K"; JStr "P"])
    ∧ (∀ v, llm = Some (Ok v) → (∀ l, v ≠ JList l) →
            keys = [JStr "K"; JStr "P"])
    ∧ (∀ l, llm = Some (Ok (JList l)) → keys = l).
Proof.
  destruct llm as [[v|e]|]; simpl.
  - destruct v as [| | | |l|];
      (eexists; split; [reflexivity |]; repeat split; intros;
       simplify_eq; try done).
    match goal with H : ∀ l', JList l ≠ JList l' |- _ => by destruct (H l) end.
  - eexists. split; [done |]. repeat split; done.
  - eexists. split; [done |]. repeat split; done.
Qed.

Lemma classifier_fallback_witness :
  _analyze_query_with_llm (Some (Raise (ExternalError "timeout")))
  = Ok [JStr "K"; JStr "P"]
  ∧ _analyze_query_with_llm (Some (Ok (JStr "not a list")))
    = Ok [JStr "K"; JStr "P"].
Proof.
  split.
  - destruct (classifier_fallback (Some (Raise (ExternalError "timeout"))))
      as (keys & -> & _ & Hraise & _).
    f_equal. by eapply Hraise.
  - destruct (classifier_fallback (Some (Ok (JStr "not a list"))))
      as (keys & -> & _ & _ & Hother & _).
    f_equal. by eapply Hother.
Defined.

(** C4, the failing input: the empty list is a list, so the reply [[]]
    comes back as the inferred categories, an empty sequence, and a reply
    of unknown codes comes back unchanged, where the claim has the default;
    the other branches (no classifier, a call that raises, a reply that is
    not a list) do return a default. The query then ends with the
    [ValueError] of the interleave step. *)
Lemma classifier_empty_reply :
  _analyze_query_with_llm (Some (Ok (JList []))) = Ok []
  ∧ ¬ fallback_claim (Some (Ok (JList [])))
  ∧ _analyze_query_with_llm (Some (Ok (JList [JStr "X"]))) = Ok [JStr "X"]
  ∧ _analyze_query_with_llm None = Ok [JStr "K"; JStr "P"; JStr "A"]
  ∧ _analyze_query_with_llm (Some (Raise (ExternalError "timeout")))
    = Ok [JStr "K"; JStr "P"]
  ∧ _analyze_query_with_llm (Some (Ok (JStr "not a list")))
    = Ok [JStr "K"; JStr "P"]
  ∧ get_recommendations ready (world (JList []) sample_metas)
      default_max_results = Raise ValueError.
Proof.
  split; [done |]. split.
  { intros (keys & Hrun & Hne). simpl in Hrun. congruence. }
  do 4 (split; [reflexivity |]). reflexivity.
Qed.

(** C5 (as amended). A candidate placed in a bucket is in the bucket of the
    first category of the inferred list, in that list's order, whose name
    occurs in the candidate's stored [test_type] string; the order of the
    candidate's own categories plays no part. *)
Theorem bucket_choice_inferred_order names (metas : list pydict)
    ranked_lists r n s :
  Forall (λ d, catalog_item d = true) metas →
  bucket_candidates metas names (seq 0 (length metas)) = Ok ranked_lists →
  r ∈ bucket ranked_lists n →
  test_type_str metas r = Some s →
  ∃ before after,
    names = before ++ n :: after
    ∧ PyStr.contains n s = true
    ∧ Forall (λ m, PyStr.contains m s = false) before.
Proof.
  intros Hwf Hrun Hr Hs.
  destruct (bucket_candidates_filter metas names (seq 0 (length metas)))
    as (ranked_lists' & Hrun' & Hget).
  { eapply Forall_impl; [by apply catalog_items_refs |].
    apply catalog_item_test_type_str. }
  assert (ranked_lists' = ranked_lists) as -> by congruence.
  unfold bucket in Hr. rewrite Hget in Hr.
  case_decide; simpl in Hr; [| by apply elem_of_nil in Hr].
  apply list_elem_of_filter in Hr as [Hch _].
  unfold chosen in Hch. rewrite Hs in Hch. simpl in Hch.
  by apply first_matching_split.
Qed.

Lemma bucket_choice_inferred_order_witness :
  ∃ before after,
    own_order_names = before ++ "Knowledge & Skills" :: after
    ∧ PyStr.contains "Knowledge & Skills"
        "Personality & Behavior, Knowledge & Skills" = true
    ∧ Forall (λ m, PyStr.contains m
                     "Personality & Behavior, Knowledge & Skills" = false)
             before.
Proof.
  eapply (bucket_choice_inferred_order own_order_names own_order_metas
            _ 0%nat).
  - by repeat constructor.
  - reflexivity.
  - vm_compute. left.
  - reflexivity.
Defined.

(** C5, the failing case: the inferred list is K, P and the candidate's own
    list is P, K; the data model's rule picks P, the code picks K. *)
Lemma own_order_rule_fails : ¬ own_order_rule own_order_names own_order_metas.
Proof.
  intros Hrule.
  assert (own_order_choice own_order_names
            "Personality & Behavior, Knowledge & Skills"
          = Some "Knowledge & Skills") as Hchoice.
  { apply (Hrule [("Knowledge & Skills", [0%nat]);
                  ("Personality & Behavior", [])] 0%nat).
    - reflexivity.
    - vm_compute. left.
    - reflexivity. }
  vm_compute in Hchoice. discriminate.
Qed.

(** C6. Once the query has reached the search (the recommender is
    initialized, the inferred keys were mapped and the query was embedded),
    a search that raises, or that returns no metadata, makes
    [get_recommendations] return the empty list: the exception does not
    propagate. *)
Theorem search_failure_empty self w max_results keys names :
  client self = true → embed_model self = true →
  _analyze_query_with_llm (llm w) = Ok keys →
  required_type_names keys = Ok names →
  encode w = Ok () →
  (∃ e, query w = Raise e) ∨ query w = Ok None ∨ query w = Ok (Some []) →
  get_recommendations self w max_results = Ok ([], []).
Proof.
  intros Hc He Hkeys Hnames Henc Hq.
  rewrite (get_recommendations_ready _ _ _ keys names) by done.
  unfold search_and_rank. by destruct Hq as [[e ->]|[->| ->]].
Qed.

Lemma search_failure_empty_witness :
  get_recommendations ready
    {| llm := Some (Ok K_and_P); encode := Ok ();
       query := Raise (ExternalError "index unavailable") |}
    default_max_results
  = Ok ([], []).
Proof.
  eapply search_failure_empty; try reflexivity. left. by eexists.
Defined.

(** C7 (as amended). A recommender that is not initialized returns the
    single record with the one field [error]. An initialized one returns,
    over metadata stored with the seven fields, only records with exactly
    those seven fields, each the retrieved record with its [test_type]
    string replaced by the list of its comma-separated, trimmed parts. *)
Theorem records_shape self w max_results :
  (∀ metas rest, query w = Ok (Some (metas :: rest)) →
                 Forall (λ d, stored_item d = true) metas) →
  (client self && embed_model self = false →
     get_recommendations self w max_results = Ok ([0%nat], [not_initialized]))
  ∧ (client self && embed_model self = true →
     ∀ out, get_recommendations self w max_results = Ok out →
       length (records out) = length out.1
       ∧ Forall well_formed_record (records out)
       ∧ ∀ metas rest r,
           query w = Ok (Some (metas :: rest)) → r ∈ out.1 →
           ∃ d0 s,
             metas !! r = Some d0
             ∧ d0 !! "test_type" = Some (VStr s)
             ∧ out.2 !! r
               = Some (<["test_type" :=
                           VList (PyStr.strip <$> PyStr.split_comma s)]> d0)).
Proof.
  intros Hstored. split.
  - intros Hinit. unfold get_recommendations.
    destruct (client self), (embed_model self); done.
  - intros [Hc He]%andb_true_iff out Hrun.
    destruct (get_recommendations_inv _ _ _ _ Hc He Hrun) as [names Hrank].
    unfold search_and_rank in Hrank.
    destruct (query w) as [[[|metas rest]|]|e] eqn:Hq;
      try (injection Hrank as <-; repeat split; [constructor | done]).
    specialize (Hstored metas rest eq_refl).
    pose proof (stored_item_catalog_item _ Hstored) as Hwf.
    apply rank_inv in Hrank as [_ ->]; [| done].
    assert (∀ r, r ∈ ranking names metas max_results →
      ∃ d0 s, metas !! r = Some d0 ∧ d0 !! "test_type" = Some (VStr s)
        ∧ normalize_kept (ranking names metas max_results) metas !! r
          = Some (<["test_type" :=
                      VList (PyStr.strip <$> PyStr.split_comma s)]> d0))
      as Hrec by (intros r; by apply ranking_record).
    split; [| split].
    + apply records_length, Forall_forall. simpl. intros r Hr.
      destruct (Hrec r Hr) as (d0 & s & _ & _ & ->). by eexists.
    + apply Forall_forall. intros d (r & Hr & Hd)%records_lookup.
      simpl in Hr, Hd. destruct (Hrec r Hr) as (d0 & s & Hd0 & Hs & Hd').
      rewrite Hd' in Hd. injection Hd as <-.
      pose proof (Forall_lookup_1 _ _ _ _ Hstored Hd0) as Hst.
      simpl in Hst. apply andb_true_iff in Hst as [Hdom%bool_decide_eq_true _].
      split.
      * rewrite dom_insert_lookup_L by (by eexists). done.
      * eexists. apply lookup_insert_eq.
    + intros metas' rest' r [= <- <-] Hr. simpl in Hr. by apply Hrec.
Qed.

Lemma records_shape_witness :
  get_recommendations ready (world K_and_P sample_metas) default_max_results
  = Ok ([0; 1]%nat, normalize_kept [0; 1]%nat sample_metas)
  ∧ length (records ([0; 1]%nat, normalize_kept [0; 1]%nat sample_metas))
    = 2%nat
  ∧ Forall well_formed_record
      (records ([0; 1]%nat, normalize_kept [0; 1]%nat sample_metas)).
Proof.
  split; [reflexivity |].
  destruct (records_shape ready (world K_and_P sample_metas)
              default_max_results) as [_ Hready].
  - intros metas rest [= <- <-]. by repeat constructor.
  - destruct (Hready eq_refl
                ([0; 1]%nat, normalize_kept [0; 1]%nat sample_metas) eq_refl)
      as (Hlen & Hshape & _).
    split; [exact Hlen | exact Hshape].
Defined.

(** C7, the failing case: the record of a recommender that is not
    initialized has the one field [error]. *)
Lemma records_claim_not_ready :
  ¬ records_claim not_ready (world K_and_P sample_metas) default_max_results.
Proof.
  intros Hclaim. specialize (Hclaim _ eq_refl).
  apply Forall_inv in Hclaim as [Hdom _].
  assert ("error" ∈ response_fields) as Herr.
  { rewrite <- Hdom. apply elem_of_dom. by eexists. }
  vm_compute in Herr. discriminate.
Qed.

(** C8 (as amended). The call changes nothing but the [test_type] field of
    the records it returns: the heap keeps its size, a retrieved record that
    is not returned is what it was, and a returned one is the retrieved
    record with its [test_type] string replaced by the list of its trimmed
    parts, every other field as it arrived. *)
Theorem mutation_frame self w max_results metas rest out :
  client self = true → embed_model self = true →
  query w = Ok (Some (metas :: rest)) →
  Forall (λ d, catalog_item d = true) metas →
  get_recommendations self w max_results = Ok out →
  length out.2 = length metas
  ∧ ∀ r d, metas !! r = Some d →
      (r ∉ out.1 → out.2 !! r = Some d)
      ∧ (r ∈ out.1 →
         ∃ s, d !! "test_type" = Some (VStr s)
              ∧ out.2 !! r
                = Some (<["test_type" :=
                            VList (PyStr.strip <$> PyStr.split_comma s)]> d))
      ∧ (∀ d' key, out.2 !! r = Some d' → key ≠ "test_type" →
                   d' !! key = d !! key).
Proof.
  intros Hc He Hq Hwf Hrun.
  destruct (get_recommendations_inv _ _ _ _ Hc He Hrun) as [names Hrank].
  unfold search_and_rank in Hrank. rewrite Hq in Hrank.
  apply rank_inv in Hrank as [_ ->]; [| done]. simpl.
  split; [apply length_imap |].
  intros r d Hd. split; [| split].
  - intros Hr. rewrite normalize_kept_lookup, Hd. simpl.
    by rewrite decide_False.
  - intros Hr.
    destruct (ranking_record _ _ _ _ Hwf Hr) as (d0 & s & Hd0 & Hs & Hd').
    assert (d0 = d) as -> by congruence. by exists s.
  - intros d' key. rewrite normalize_kept_lookup, Hd. simpl.
    intros [= <-] Hkey. case_decide; [| done]. by apply normalized_other.
Qed.

Lemma mutation_frame_witness :
  get_recommendations ready (world K_and_P sample_metas) default_max_results
  = Ok ([0; 1]%nat, normalize_kept [0; 1]%nat sample_metas)
  ∧ length (normalize_kept [0; 1]%nat sample_metas) = 4%nat
  ∧ normalize_kept [0; 1]%nat sample_metas !! 2%nat
    = Some (item "u3" "Simulations").
Proof.
  split; [reflexivity |].
  destruct (mutation_frame ready (world K_and_P sample_metas)
              default_max_results sample_metas []
              ([0; 1]%nat, normalize_kept [0; 1]%nat sample_metas))
    as [Hlen Hframe]; try reflexivity.
  - by repeat constructor.
  - split; [exact Hlen |].
    destruct (Hframe 2%nat (item "u3" "Simulations") eq_refl) as (Hkeep & _).
    apply Hkeep. simpl. intros Hin.
    repeat (apply elem_of_cons in Hin as [Hin|Hin]; [done |]).
    by apply elem_of_nil in Hin.
Defined.

(** C8, the failing case: the first retrieved record is returned, and its
    [test_type] is a list after the call where a string arrived. *)
Lemma no_mutation_claim_fails :
  ¬ no_mutation_claim ready (world K_and_P sample_metas) default_max_results.
Proof.
  intros Hclaim.
  specialize (Hclaim ([0; 1]%nat, normalize_kept [0; 1]%nat sample_metas)
                sample_metas [] eq_refl eq_refl 0%nat
                (item "u1" "Knowledge & Skills") eq_refl).
  apply (f_equal (λ o, o ≫= (.!! "test_type"))) in Hclaim.
  discriminate Hclaim.
Qed.

(** C9. When the inferred keys map to no category name at all and the broad
    search succeeds, [get_recommendations] raises: the interleave step takes
    the maximum of an empty sequence. *)
Theorem no_category_raises self w max_results keys metas rest :
  client self = true → embed_model self = true →
  _analyze_query_with_llm (llm w) = Ok keys →
  required_type_names keys = Ok [] →
  encode w = Ok () →
  query w = Ok (Some (metas :: rest)) →
  get_recommendations self w max_results = Raise ValueError.
Proof.
  intros Hc He Hkeys Hnames Henc Hq.
  rewrite (get_recommendations_ready _ _ _ keys []) by done.
  unfold search_and_rank. rewrite Hq. apply rank_no_name.
Qed.

Lemma no_category_raises_witness :
  get_recommendations ready (world (JList []) sample_metas)
    default_max_results = Raise ValueError
  ∧ get_recommendations ready
      (world (JList [JStr "X"; JNum 7; JStr "k"]) sample_metas)
      default_max_results = Raise ValueError.
Proof.
  split.
  - eapply no_category_raises; reflexivity.
  - eapply no_category_raises;
      [reflexivity | reflexivity | reflexivity | | reflexivity | reflexivity].
    apply required_type_names_unknown. by repeat constructor.
Defined.

(** C10. For every non-empty collection of buckets the interleaved output is
    a permutation of their concatenation: the lengths add up and every
    element keeps its multiplicity. *)
Theorem interleave_permutation `{EqDecision A} (lists : list (list A)) :
  lists ≠ [] →
  ∃ out,
    _interleave_lists lists = Ok out
    ∧ out ≡ₚ mjoin lists
    ∧ length out = sum_list (length <$> lists)
    ∧ ∀ x, multiplicity x out = multiplicity x (mjoin lists).
Proof.
  intros Hne. eexists. split; [by apply interleave_rounds |].
  assert (rounds lists (max_list (length <$> lists)) ≡ₚ mjoin lists) as Hp
    by (by apply rounds_permutation, exhausted_max_list).
  split; [done |]. split.
  - by rewrite Hp, length_join.
  - intros x. unfold multiplicity. by rewrite Hp.
Qed.

Lemma interleave_permutation_witness :
  ∃ out,
    _interleave_lists [[1; 2; 1]; []; [2; 7]]%nat = Ok out
    ∧ out ≡ₚ [1; 2; 1; 2; 7]%nat
    ∧ length out = 5%nat
    ∧ ∀ x, multiplicity x out = multiplicity x [1; 2; 1; 2; 7]%nat.
Proof. apply (interleave_permutation [[1; 2; 1]; []; [2; 7]]%nat). done. Defined.

(** * Further properties *)

(** ** Strings: joining, splitting, searching *)

Lemma append_nil_l s : "" +:+ s = s.
Proof. reflexivity. Qed.

Lemma append_cons c s t : String c s +:+ t = String c (s +:+ t).
Proof. reflexivity. Qed.

Lemma prefix_app_char n s1 c s2 :
  has_char c n = false →
  String.prefix n (s1 +:+ String c s2) = String.prefix n s1.
Proof.
  revert s1. induction n as [|m n IH]; intros s1 Hc; [by destruct s1 |].
  simpl in Hc. apply orb_false_iff in Hc as [Hm Hn].
  destruct s1 as [|h s1]; simpl.
  - destruct (ascii_dec m c) as [->|]; [| done].
    by rewrite Ascii.eqb_refl in Hm.
  - destruct (ascii_dec m h); [by apply IH | done].
Qed.

Lemma prefix_nonempty_nil n : n ≠ "" → String.prefix n "" = false.
Proof. by destruct n. Qed.

Lemma contains_app_char n s1 c s2 :
  has_char c n = false → n ≠ "" →
  PyStr.contains n (s1 +:+ String c s2)
  = PyStr.contains n s1 || PyStr.contains n s2.
Proof.
  intros Hc Hn. induction s1 as [|h s1 IH].
  - pose proof (prefix_app_char n "" c s2 Hc) as Hp.
    rewrite prefix_nonempty_nil in Hp by done.
    rewrite append_nil_l in *. cbn [PyStr.contains]. rewrite Hp.
    by rewrite prefix_nonempty_nil.
  - pose proof (prefix_app_char n (String h s1) c s2 Hc) as Hp.
    rewrite append_cons in *. cbn [PyStr.contains]. rewrite Hp, IH.
    by rewrite orb_assoc.
Qed.

Lemma contains_nil n : n ≠ "" → PyStr.contains n "" = false.
Proof. intros Hn. by destruct n. Qed.

Lemma contains_refl n : PyStr.contains n n = true.
Proof.
  assert (String.prefix n n = true) as Hp.
  { induction n as [|c n IH]; simpl; [done |].
    by destruct (ascii_dec c c). }
  destruct n; simpl in *; [done | by rewrite Hp].
Qed.

(** Searching a joined string for a name that has no comma and does not
    start with a blank is searching the parts. *)
Lemma contains_join n m parts :
  has_char "," (String m n) = false → m ≠ " "%char →
  PyStr.contains (String m n) (str_join ", " parts)
  = existsb (PyStr.contains (String m n)) parts.
Proof.
  intros Hc Hm. induction parts as [|x parts IH]; [done |].
  destruct parts as [|y parts].
  - simpl existsb. by rewrite orb_false_r.
  - change (str_join ", " (x :: y :: parts))
      with (x +:+ String "," (String " " (str_join ", " (y :: parts)))).
    rewrite contains_app_char by done.
    change (existsb _ (x :: y :: parts))
      with (PyStr.contains (String m n) x
            || existsb (PyStr.contains (String m n)) (y :: parts)).
    rewrite <- IH. f_equal.
    cbn [PyStr.contains String.prefix].
    destruct (ascii_dec m " "); [done | done].
Qed.

Lemma category_names_searchable :
  forallb searchable category_names = true.
Proof. reflexivity. Qed.

Lemma category_names_apart : no_name_inside_another category_names = true.
Proof. reflexivity. Qed.

Lemma searchable_contains_join name parts :
  searchable name = true →
  PyStr.contains name (str_join ", " parts)
  = existsb (PyStr.contains name) parts.
Proof.
  destruct name as [|m n]; [done |]. unfold searchable.
  intros [Hc Hm]%andb_true_iff. apply contains_join.
  - by apply negb_true_iff.
  - apply negb_true_iff, Ascii.eqb_neq in Hm. done.
Qed.

(** X1. For a candidate stored with categories among the eight names, the
    substring test of the bucketing step is the membership test: the name
    is found in the comma-joined string exactly when it is one of the
    candidate's categories. *)
Theorem stored_categories_substring_is_membership (cats : list string) name :
  name ∈ category_names →
  Forall (λ cat, cat ∈ category_names) cats →
  py_in name (VStr (str_join ", " cats)) = Ok (bool_decide (name ∈ cats)).
Proof.
  intros Hname Hcats. simpl. f_equal.
  pose proof category_names_searchable as Hs.
  rewrite forallb_forall in Hs.
  rewrite searchable_contains_join
    by (by apply Hs, list_elem_of_In).
  destruct (existsb (PyStr.contains name) cats) eqn:Hex; symmetry.
  - apply bool_decide_eq_true. apply existsb_exists in Hex as (cat & Hin & Hc).
    apply list_elem_of_In in Hin.
    pose proof category_names_apart as Hap. unfold no_name_inside_another in Hap.
    rewrite forallb_forall in Hap.
    specialize (Hap name (proj1 (list_elem_of_In _ _) Hname)).
    rewrite forallb_forall in Hap.
    rewrite Forall_forall in Hcats.
    specialize (Hap cat (proj1 (list_elem_of_In _ _) (Hcats cat Hin))).
    rewrite Hc in Hap. simpl in Hap. apply String.eqb_eq in Hap. by subst.
  - apply bool_decide_eq_false. intros Hin.
    assert (existsb (PyStr.contains name) cats = true) as Hex'; [| congruence].
    apply existsb_exists. exists name. split; [by apply list_elem_of_In |].
    apply contains_refl.
Qed.

Lemma stored_categories_substring_is_membership_witness :
  py_in "Simulations"
    (VStr (str_join ", " ["Knowledge & Skills"; "Simulations"])) = Ok true
  ∧ py_in "Competencies"
      (VStr (str_join ", " ["Knowledge & Skills"; "Simulations"])) = Ok false.
Proof.
  split.
  - rewrite (stored_categories_substring_is_membership
               ["Knowledge & Skills"; "Simulations"] "Simulations");
      [reflexivity | (vm_compute; repeat constructor) | ].
    repeat constructor; (vm_compute; repeat constructor).
  - rewrite (stored_categories_substring_is_membership
               ["Knowledge & Skills"; "Simulations"] "Competencies");
      [reflexivity | (vm_compute; repeat constructor) | ].
    repeat constructor; (vm_compute; repeat constructor).
Defined.

Lemma split_comma_no_comma s :
  has_char "," s = false → PyStr.split_comma s = [s].
Proof.
  induction s as [|c s IH]; [done |]. cbn [has_char PyStr.split_comma].
  intros [Hc Hs]%orb_false_iff. rewrite Ascii.eqb_sym in Hc.
  by rewrite Hc, IH.
Qed.

Lemma split_comma_app_comma x r :
  has_char "," x = false →
  PyStr.split_comma (x +:+ String "," r) = x :: PyStr.split_comma r.
Proof.
  induction x as [|c x IH]; [done |]. cbn [has_char].
  intros [Hc Hx]%orb_false_iff. rewrite Ascii.eqb_sym in Hc.
  rewrite append_cons. cbn [PyStr.split_comma]. by rewrite Hc, IH.
Qed.

Lemma split_comma_join x parts :
  Forall (λ part, has_char "," part = false) (x :: parts) →
  PyStr.split_comma (str_join ", " (x :: parts)) = x :: (String " " <$> parts).
Proof.
  revert x. induction parts as [|y parts IH]; intros x Hall.
  - apply split_comma_no_comma. by inversion Hall.
  - change (str_join ", " (x :: y :: parts))
      with (x +:+ String "," (String " " (str_join ", " (y :: parts)))).
    inversion Hall as [|?? Hx Hrest]; subst.
    rewrite split_comma_app_comma by done.
    cbn [PyStr.split_comma]. change (Ascii.eqb " " ",") with false.
    cbn iota. by rewrite IH.
Qed.

Lemma strip_blank s : PyStr.strip (String " " s) = PyStr.strip s.
Proof. reflexivity. Qed.

Lemma split_strip_join parts :
  parts ≠ [] → Forall clean parts →
  PyStr.strip <$> PyStr.split_comma (str_join ", " parts) = parts.
Proof.
  destruct parts as [|x parts]; [done | intros _ Hclean].
  rewrite split_comma_join.
  2:{ eapply Forall_impl; [exact Hclean |]. by intros s [? _]. }
  inversion Hclean as [|?? [_ Hx] Hrest]; subst. csimpl. rewrite Hx. f_equal.
  rewrite <- list_fmap_compose. clear Hclean.
  induction Hrest as [|y parts [_ Hy] _ IH]; csimpl; [done |].
  by rewrite strip_blank, Hy, IH.
Qed.

(** X2. What the embedder joins, the recommender splits back: for a
    non-empty list of categories without commas or white space at their
    ends, splitting the stored string on commas and trimming the parts gives
    the list again, and the eight category names are such; the empty list
    does not survive, it comes back as the list of one empty string. *)
Theorem join_split_round_trip (cats : list string) :
  (cats ≠ [] → Forall clean cats →
     split_test_type (VStr (str_join ", " cats)) = Ok cats)
  ∧ split_test_type (VStr (str_join ", " [])) = Ok [""]
  ∧ Forall clean category_names.
Proof.
  split; [| split].
  - intros Hne Hclean. simpl. by rewrite split_strip_join.
  - reflexivity.
  - by repeat constructor.
Qed.

Lemma join_split_round_trip_witness :
  split_test_type
    (VStr (str_join ", " ["Knowledge & Skills"; "Simulations"]))
  = Ok ["Knowledge & Skills"; "Simulations"].
Proof.
  apply (join_split_round_trip ["Knowledge & Skills"; "Simulations"]);
    [done | by repeat constructor].
Defined.

(** ** The embedder *)

Lemma create_document_chunks_loop (l : list (nat * row)) documents metadatas ids :
  foldl (λ '(documents, metadatas, ids) '(i, r),
           (documents ++ [doc_text r (str_join ", " (row_test_type r))],
            metadatas ++ [metadata r],
            ids ++ ["assessment_" +:+ pretty (i : nat)]))
        (documents, metadatas, ids) l
  = (documents ++ ((λ '(i, r), doc_text r (str_join ", " (row_test_type r)))
                     <$> l),
     metadatas ++ ((λ '(i, r), metadata r) <$> l),
     ids ++ ((λ '(i, r), "assessment_" +:+ pretty (i : nat)) <$> l)).
Proof.
  revert documents metadatas ids.
  induction l as [|[i r] l IH]; intros documents metadatas ids; csimpl.
  - by rewrite !app_nil_r.
  - rewrite IH, <- !app_assoc. done.
Qed.

Lemma create_document_chunks_closed (df : list row) :
  create_document_chunks df
  = ((λ r, doc_text r (str_join ", " (row_test_type r))) <$> df,
     metadata <$> df,
     imap (λ i _, "assessment_" +:+ pretty i) df).
Proof.
  unfold create_document_chunks. rewrite create_document_chunks_loop.
  simpl. rewrite !fmap_imap. by rewrite <- !imap_const.
Qed.

Lemma append_inj_r p a b : p +:+ a = p +:+ b → a = b.
Proof.
  induction p as [|c p IH]; [done |]. rewrite !append_cons.
  intros [= H]. by apply IH.
Qed.

Lemma metadata_stored_item (r : row) : stored_item (metadata r) = true.
Proof.
  unfold stored_item. apply andb_true_iff. split.
  - apply bool_decide_eq_true. unfold metadata, response_fields.
    rewrite dom_list_to_map_L. simpl. set_solver.
  - unfold catalog_item, metadata. simpl.
    rewrite !lookup_insert_ne by done. by rewrite lookup_insert_eq.
Qed.

(** X3. [create_document_chunks] returns three lists as long as the data
    frame, aligned row by row: the metadata of row [i] is at index [i] and
    its id is "assessment_" followed by [i] in decimal; no id occurs twice. *)
Theorem create_document_chunks_aligned (df : list row) :
  ∃ documents metadatas ids,
    create_document_chunks df = (documents, metadatas, ids)
    ∧ length documents = length df
    ∧ length metadatas = length df
    ∧ length ids = length df
    ∧ NoDup ids
    ∧ ∀ i r, df !! i = Some r →
        documents !! i
        = Some (doc_text r (str_join ", " (row_test_type r)))
        ∧ metadatas !! i = Some (metadata r)
        ∧ ids !! i = Some ("assessment_" +:+ pretty i).
Proof.
  rewrite create_document_chunks_closed. do 3 eexists. split; [done |].
  rewrite !length_fmap, length_imap.
  do 3 (split; [done |]). split.
  - apply NoDup_alt. intros i j id.
    rewrite !list_lookup_imap.
    destruct (df !! i), (df !! j); simpl; try done.
    intros [= <-] [= Heq]. by apply append_inj_r, (inj pretty) in Heq.
  - intros i r Hr.
    rewrite !list_lookup_fmap, list_lookup_imap, Hr. done.
Qed.

(** X4. Every metadata dict the embedder stores has exactly the seven
    fields of a response record, with a string url, the categories joined
    by ", " under [test_type] and an integer duration that is -1 when the
    row has none. *)
Theorem embedder_metadata_shape (df : list row) (d : pydict) :
  d ∈ (create_document_chunks df).1.2 →
  stored_item d = true
  ∧ ∃ r, r ∈ df
      ∧ d !! "url" = Some (VStr (row_url r))
      ∧ d !! "test_type" = Some (VStr (str_join ", " (row_test_type r)))
      ∧ d !! "duration" = Some (VInt (default (-1) (row_duration r))).
Proof.
  rewrite create_document_chunks_closed. simpl.
  intros (r & -> & Hr)%list_elem_of_fmap.
  split; [apply metadata_stored_item |]. exists r. split; [done |].
  unfold metadata. by destruct (row_duration r).
Qed.

Lemma embedder_metadata_shape_witness :
  stored_item
    (metadata {| row_name := "Java 8"; row_url := "https://www.shl.com/j8";
                 row_description := ""; row_test_type := ["Knowledge & Skills"];
                 row_duration := None; row_adaptive_support := "No";
                 row_remote_support := "Yes" |}) = true.
Proof.
  eapply (embedder_metadata_shape
            [{| row_name := "Java 8"; row_url := "https://www.shl.com/j8";
                row_description := ""; row_test_type := ["Knowledge & Skills"];
                row_duration := None; row_adaptive_support := "No";
                row_remote_support := "Yes" |}]).
  simpl. left.
Defined.

Lemma py_range_step_lookup n step j :
  (0 < step)%nat →
  py_range_step n step !! j
  = if decide (j * step < n)%nat then Some (j * step)%nat else None.
Proof.
  intros Hstep. unfold py_range_step. rewrite list_lookup_fmap.
  assert ((j * step < n)%nat ↔ (j < (n + step - 1) / step)%nat) as Hiff.
  { split; intros H.
    - apply Nat.div_le_lower_bound; nia.
    - assert (((n + step - 1) / step) * step ≤ n + step - 1)%nat
        by (rewrite Nat.mul_comm; apply Nat.Div0.mul_div_le).
      nia. }
  case_decide as Hj.
  - rewrite lookup_seq_lt by (by apply Hiff). done.
  - rewrite lookup_seq_ge; [done |]. rewrite Hiff in Hj. lia.
Qed.

Lemma slices_concat {A : Type} (l : list A) (b k : nat) :
  mjoin ((λ j, take b (drop (j * b) l)) <$> seq 0 k) = take (k * b) l.
Proof.
  induction k as [|k IH]; [done |].
  rewrite seq_S, fmap_app, join_app, IH. simpl.
  rewrite app_nil_r, take_take_drop. f_equal. lia.
Qed.

(** X5. The batches handed to [collection.add] cut the list into
    consecutive pieces: put end to end they are the whole list, each holds
    at least one and at most 100 items, and there are ceil(n/100) of them. *)
Theorem embed_batches_partition {A : Type} (documents : list A) :
  mjoin ((embed_batches documents).*2) = documents
  ∧ Forall (λ batch, (0 < length batch ≤ batch_size)%nat)
           ((embed_batches documents).*2)
  ∧ length (embed_batches documents)
    = ((length documents + batch_size - 1) / batch_size)%nat.
Proof.
  unfold embed_batches, py_range_step.
  rewrite <- !list_fmap_compose, !length_fmap, length_seq.
  set (k := ((length documents + batch_size - 1) / batch_size)%nat).
  assert (batch_size = 100%nat) as Hb by done.
  assert (length documents ≤ k * batch_size)%nat as Hk.
  { unfold k. rewrite Hb.
    pose proof (Nat.div_mod_eq (length documents + 100 - 1) 100).
    pose proof (Nat.mod_upper_bound (length documents + 100 - 1) 100).
    lia. }
  assert (∀ j, j < k → j * batch_size < length documents)%nat as Hj.
  { intros j Hlt. unfold k in Hlt. rewrite Hb in *.
    assert (((length documents + 100 - 1) / 100) * 100
            ≤ length documents + 100 - 1)%nat
      by (rewrite Nat.mul_comm; apply Nat.Div0.mul_div_le).
    nia. }
  split; [| split; [| done]].
  - etrans; [apply (slices_concat documents batch_size k) |].
    by apply take_ge.
  - apply Forall_fmap, Forall_forall. intros j Hin%elem_of_seq. simpl.
    unfold batch_slice. rewrite length_take, length_drop.
    specialize (Hj j). lia.
Qed.

(** X6. The progress message of the embedding loop numbers the batches
    1, 2, ... but its total, [len(documents)//batch_size + 1], is the number
    of batches only when the number of documents is not a multiple of 100;
    when it is, the total announced is one more than the batches there are. *)
Theorem embed_batches_progress {A : Type} (documents : list A) j number total
    batch :
  embed_batches documents !! j = Some (number, total, batch) →
  number = S j
  ∧ (length documents `mod` batch_size ≠ 0 →
       total = length (embed_batches documents))%nat
  ∧ (length documents `mod` batch_size = 0 →
       total = S (length (embed_batches documents)))%nat.
Proof.
  unfold embed_batches. rewrite list_lookup_fmap, length_fmap.
  rewrite py_range_step_lookup by (unfold batch_size; lia).
  case_decide as Hj; [| done].
  cbn [fmap option_fmap option_map]. intros [= <- <- <-].
  assert (batch_size = 100%nat) as Hb by done.
  repeat match goal with
         | |- context [(Nat.divmod ?x 99 0 99).1] =>
             change (Nat.divmod x 99 0 99).1 with (x / 100)%nat
         end.
  unfold py_range_step. rewrite length_fmap, length_seq, Hb.
  split; [rewrite Nat.div_mul by lia; lia |].
  pose proof (Nat.div_mod_eq (length documents) 100) as Hn.
  pose proof (Nat.mod_upper_bound (length documents) 100) as Hm.
  pose proof (Nat.div_mod_eq (length documents + 100 - 1) 100) as Hn'.
  pose proof (Nat.mod_upper_bound (length documents + 100 - 1) 100) as Hm'.
  split; intros Hmod; lia.
Qed.

Lemma embed_batches_progress_witness :
  ∃ total,
    embed_batches (replicate 200 "doc") !! 1%nat
    = Some (2%nat, total, replicate 100 "doc")
    ∧ total = 3%nat
    ∧ total = S (length (embed_batches (replicate 200 "doc"))).
Proof.
  exists 3%nat. split; [reflexivity |]. split; [reflexivity |].
  eapply (embed_batches_progress (replicate 200 "doc") 1%nat);
    reflexivity.
Defined.

(** ** More on the recommender *)

Lemma required_type_names_unhashable keys :
  Exists (λ key, unhashable key = true) keys →
  required_type_names keys = Raise TypeError.
Proof.
  induction keys as [|key keys IH]; [by intros ?%Exists_nil |].
  intros Hex. simpl.
  destruct key as [| | | |l|l]; simpl;
    try done;
    (apply Exists_cons in Hex as [Hk|Hex]; [done |];
     by rewrite IH).
Qed.

(** X7. A classifier reply that is a list with a list or an object among
    its elements makes [get_recommendations] raise [TypeError]: the look-up
    in the category table is outside every [try], and nothing is searched. *)
Theorem unhashable_key_raises self w max_results keys :
  client self = true → embed_model self = true →
  llm w = Some (Ok (JList keys)) →
  Exists (λ key, unhashable key = true) keys →
  get_recommendations self w max_results = Raise TypeError.
Proof.
  intros Hc He Hllm Hex. unfold get_recommendations.
  rewrite Hc, He, Hllm. simpl.
  by rewrite required_type_names_unhashable.
Qed.

Lemma unhashable_key_raises_witness :
  get_recommendations ready
    {| llm := Some (Ok (JList [JStr "K"; JList [JStr "P"]]));
       encode := Ok ();
       query := Raise (ExternalError "index unavailable") |}
    default_max_results
  = Raise TypeError.
Proof.
  eapply unhashable_key_raises; try reflexivity.
  right. left. reflexivity.
Defined.

(** X8. Whatever the state of the recommender and the answers of the
    classifier and of the search (over catalog items), a list
    [get_recommendations] returns never has more than max(1, max_results)
    records, never more than the search returned candidates (when it
    returned any), and no two of its records share a url. *)
Theorem result_bounds self w max_results out :
  (∀ metas rest, query w = Ok (Some (metas :: rest)) →
                 Forall (λ d, catalog_item d = true) metas) →
  get_recommendations self w max_results = Ok out →
  (length out.1 ≤ Z.to_nat (Z.max 1 max_results))%nat
  ∧ NoDup (url_key out.2 <$> out.1)
  ∧ ∀ metas rest, query w = Ok (Some (metas :: rest)) →
                  (length out.1 ≤ Nat.max 1 (length metas))%nat.
Proof.
  intros Hwf. unfold get_recommendations.
  destruct (negb (client self) || negb (embed_model self)) eqn:Hinit.
  { intros [= <-]. simpl. split; [lia |]. split; [| intros; lia].
    apply NoDup_singleton. }
  destruct (_analyze_query_with_llm (llm w)) as [keys|]; simpl; [| done].
  destruct (required_type_names keys) as [names|]; simpl; [| done].
  destruct (encode w) as [[]|]; simpl; [| done].
  unfold search_and_rank.
  destruct (query w) as [[[|metas rest]|]|e] eqn:Hq;
    try (intros [= <-]; simpl; split; [lia |];
         split; [constructor | done]).
  intros [_ ->]%rank_inv; [| by eapply Hwf]. simpl. split; [| split].
  - unfold ranking. rewrite length_take. lia.
  - rewrite (list_fmap_ext (url_key _) (url_key metas))
      by (intros; apply url_key_normalize_kept).
    apply ranking_keys_NoDup.
  - intros metas' rest' [= <- <-].
    assert (NoDup (ranking names metas max_results)) as Hnd.
    { eapply NoDup_fmap_1, ranking_keys_NoDup. }
    assert (ranking names metas max_results ⊆ seq 0 (length metas)) as Hsub.
    { intros r Hr. apply elem_of_seq.
      destruct (ranking_catalog_ref _ _ _ _ Hr). lia. }
    pose proof (submseteq_length _ _
                  (NoDup_submseteq _ _ Hnd Hsub)) as Hlen.
    rewrite length_seq in Hlen. lia.
Qed.

Lemma result_bounds_witness :
  (length [0; 1]%nat ≤ Z.to_nat (Z.max 1 default_max_results))%nat
  ∧ NoDup (url_key (normalize_kept [0; 1]%nat sample_metas) <$> [0; 1]%nat).
Proof.
  destruct (result_bounds ready (world K_and_P sample_metas)
              default_max_results
              ([0; 1]%nat, normalize_kept [0; 1]%nat sample_metas))
    as (Hlen & Hnd & _).
  - intros metas rest [= <- <-]. by repeat constructor.
  - reflexivity.
  - split; [exact Hlen | exact Hnd].
Defined.

Lemma find_filter {A : Type} (P : A → bool) (Q : A → Prop)
    `{!∀ x, Decision (Q x)} (l : list A) :
  (∀ y, P y = true → Q y) → List.find P (filter Q l) = List.find P l.
Proof.
  intros HPQ. induction l as [|x l IH]; [done |].
  rewrite filter_cons. simpl. destruct (P x) eqn:HP.
  - rewrite decide_True by auto. simpl. by rewrite HP.
  - case_decide; simpl; by rewrite ?HP, IH.
Qed.

Lemma first_occurrences_filter_key {A K : Type} `{EqDecision K}
    (key : A → K) (k : K) (l : list A) :
  first_occurrences key (filter (λ y, key y ≠ k) l)
  = filter (λ y, key y ≠ k) (first_occurrences key l).
Proof.
  induction l as [|y l IH]; [done |].
  rewrite filter_cons. simpl. destruct (decide (key y = k)) as [<-|Hne].
  - rewrite decide_False by tauto.
    rewrite filter_cons_False by tauto.
    rewrite IH. symmetry. apply list_filter_filter_l. tauto.
  - rewrite decide_True by done. simpl.
    rewrite filter_cons_True by done. f_equal.
    rewrite IH, !list_filter_filter. apply list_filter_iff. tauto.
Qed.

Lemma first_occurrences_idemp {A K : Type} `{EqDecision K}
    (key : A → K) (l : list A) :
  first_occurrences key (first_occurrences key l) = first_occurrences key l.
Proof.
  induction l as [|x l IH]; [done |]. simpl. f_equal.
  rewrite first_occurrences_filter_key, IH.
  apply list_filter_filter_l. tauto.
Qed.

Lemma first_matching_first_occurrences names s :
  first_matching (first_occurrences id names) s = first_matching names s.
Proof.
  unfold first_matching. induction names as [|n names IH]; [done |].
  simpl. destruct (PyStr.contains n s) eqn:Hn; [done |].
  rewrite find_filter; [done |].
  intros y Hy. unfold id. intros ->. congruence.
Qed.

Lemma ranking_first_occurrences names (metas : list pydict) limit :
  ranking (first_occurrences id names) metas limit
  = ranking names metas limit.
Proof.
  assert (∀ r, chosen metas (first_occurrences id names) r
               = chosen metas names r) as Hch.
  { intros r. unfold chosen. destruct (test_type_str metas r); simpl;
      [apply first_matching_first_occurrences | done]. }
  assert (buckets_of (first_occurrences id names) metas
          = buckets_of names metas) as Hb.
  { unfold buckets_of. rewrite first_occurrences_idemp.
    apply list_fmap_ext. intros _ n _.
    apply list_filter_iff. intros r. by rewrite Hch. }
  unfold ranking. by rewrite Hb.
Qed.

(** X9. Repeating a category in the inferred list changes nothing: steps 4
    to 6 give for the list the result they give for the list without the
    repetitions (the same records, or the same exception when the list is
    empty). *)
Theorem repeated_names_irrelevant names (metas : list pydict) (limit : Z) :
  Forall (λ d, catalog_item d = true) metas →
  rank names metas limit = rank (first_occurrences id names) metas limit.
Proof.
  intros Hwf. destruct names as [|n names].
  - done.
  - rewrite !rank_spec by done. by rewrite ranking_first_occurrences.
Qed.

Lemma repeated_names_irrelevant_witness :
  rank ["Knowledge & Skills"; "Personality & Behavior"; "Knowledge & Skills"]
       sample_metas default_max_results
  = rank ["Knowledge & Skills"; "Personality & Behavior"]
         sample_metas default_max_results.
Proof.
  apply (repeated_names_irrelevant
           ["Knowledge & Skills"; "Personality & Behavior";
            "Knowledge & Skills"] sample_metas).
  by repeat constructor.
Defined.

(** ** The order of the list returned *)

Lemma filter_sublist_mono {A : Type} (P : A → Prop) `{!∀ x, Decision (P x)}
    (l1 l2 : list A) :
  l1 `sublist_of` l2 → filter P l1 `sublist_of` filter P l2.
Proof.
  induction 1 as [|x l1 l2 _ IH|x l1 l2 _ IH]; [done | |].
  - rewrite !filter_cons. case_decide; [by apply sublist_skip | done].
  - rewrite filter_cons. case_decide; [by apply sublist_cons | done].
Qed.

Lemma filter_join {A : Type} (P : A → Prop) `{!∀ x, Decision (P x)}
    (ls : list (list A)) :
  filter P (mjoin ls) = mjoin (filter P <$> ls).
Proof.
  induction ls as [|l ls IH]; [done |]. csimpl. by rewrite filter_app, IH.
Qed.

Lemma join_lookups {A : Type} (l : list A) (n : nat) :
  mjoin ((λ i, option_list (l !! i)) <$> seq 0 n) = take n l.
Proof.
  induction n as [|n IH]; [done |].
  rewrite seq_S, fmap_app, join_app, IH. simpl. rewrite app_nil_r.
  destruct (l !! n) as [x|] eqn:Hn; simpl.
  - by rewrite (take_S_r _ _ x).
  - apply lookup_ge_None in Hn. rewrite app_nil_r, !take_ge by lia. done.
Qed.

(** Index [i] of the bucket of [n] is all that round [i] holds of it. *)
Lemma filter_round (c : ref → option string) (B : string → list ref)
    (ns : list string) (n : string) (i : nat) :
  NoDup ns →
  (∀ m r, r ∈ B m → c r = Some m) →
  filter (λ r, c r = Some n) (round (B <$> ns) i)
  = if decide (n ∈ ns) then option_list (B n !! i) else [].
Proof.
  intros Hnd HB. unfold round.
  induction Hnd as [|m ns Hm Hnd IH]; cbn [fmap list_fmap omap list_omap].
  - by rewrite decide_False by apply not_elem_of_nil.
  - destruct (B m !! i) as [r|] eqn:Hr.
    + assert (c r = Some m) as Hc
        by (eapply HB, list_elem_of_lookup_2; done).
      rewrite filter_cons, IH. destruct (decide (n = m)) as [->|Hne].
      * rewrite (decide_True (P := c r = Some m)) by done.
        rewrite (decide_False (P := m ∈ ns)) by done.
        rewrite (decide_True (P := m ∈ m :: ns)) by (by left).
        by rewrite Hr.
      * rewrite (decide_False (P := c r = Some n)) by congruence.
        destruct (decide (n ∈ ns)) as [Hin|Hin].
        -- by rewrite decide_True by (by right).
        -- rewrite decide_False; [done |].
           intros [?|?]%elem_of_cons; done.
    + rewrite IH. destruct (decide (n = m)) as [->|Hne].
      * rewrite (decide_False (P := m ∈ ns)) by done.
        rewrite (decide_True (P := m ∈ m :: ns)) by (by left).
        by rewrite Hr.
      * destruct (decide (n ∈ ns)) as [Hin|Hin].
        -- by rewrite decide_True by (by right).
        -- rewrite decide_False; [done |].
           intros [?|?]%elem_of_cons; done.
Qed.

Lemma join_nils {A : Type} (n : nat) :
  mjoin ((λ _, @nil A) <$> seq 0 n) = [].
Proof.
  induction n as [|n IH]; [done |].
  by rewrite seq_S, fmap_app, join_app, IH.
Qed.

(** Of the rounds over the buckets, the candidates that chose [n] are the
    bucket of [n]. *)
Lemma filter_rounds_bucket names (metas : list pydict) n :
  filter (λ r, chosen metas names r = Some n)
         (rounds (buckets_of names metas)
                 (max_list (length <$> buckets_of names metas)))
  `sublist_of`
  filter (λ r, chosen metas names r = Some n) (seq 0 (length metas)).
Proof.
  unfold rounds. rewrite filter_join, <- list_fmap_compose.
  set (N := max_list _). unfold buckets_of.
  set (B := λ m, filter (λ r, chosen metas names r = Some m)
                        (seq 0 (length metas))).
  erewrite list_fmap_ext.
  2:{ intros _ i _. simpl. apply (filter_round _ B).
      - rewrite <- (list_fmap_id (first_occurrences id names)).
        apply first_occurrences_NoDup.
      - intros m r [Hc _]%list_elem_of_filter. exact Hc. }
  case_decide.
  - rewrite join_lookups. apply sublist_take.
  - rewrite join_nils. apply sublist_nil_l.
Qed.

Lemma in_order_seq a n : in_order (seq a n).
Proof.
  intros i j x y Hi Hj Hlt.
  apply lookup_seq in Hi as [-> _]. apply lookup_seq in Hj as [-> _]. lia.
Qed.

Lemma in_order_tail x l : in_order (x :: l) → in_order l.
Proof. intros H i j a b Hi Hj Hlt. apply (H (S i) (S j)); [done | done | lia]. Qed.

Lemma in_order_sublist l1 l2 :
  l1 `sublist_of` l2 → in_order l2 → in_order l1.
Proof.
  induction 1 as [|x l1 l2 Hsub IH|x l1 l2 Hsub IH]; intros Hord.
  - by intros i j a b ?.
  - intros [|i] [|j] a b Hi Hj Hlt; simpl in *; try lia.
    + injection Hi as <-.
      apply list_elem_of_lookup_2, (sublist_subseteq _ _ Hsub) in Hj.
      apply list_elem_of_lookup_1 in Hj as [k Hk].
      apply (Hord 0%nat (S k)); [done | done | lia].
    + apply (IH (in_order_tail _ _ Hord) i j); [done | done | lia].
  - apply IH. by eapply in_order_tail.
Qed.

Lemma in_order_filter (P : ref → Prop) `{!∀ x, Decision (P x)} l i j x y :
  in_order (filter P l) →
  l !! i = Some x → l !! j = Some y → (i < j)%nat → P x → P y → (x < y)%nat.
Proof.
  revert i j. induction l as [|z l IH]; intros i j Hord Hi Hj Hlt Hx Hy;
    [done |].
  rewrite filter_cons in Hord. destruct i as [|i], j as [|j]; try lia;
    simpl in *.
  - injection Hi as ->. rewrite decide_True in Hord by done.
    assert (y ∈ filter P l) as Hin
      by (apply list_elem_of_filter; split;
          [done | by eapply list_elem_of_lookup_2]).
    apply list_elem_of_lookup_1 in Hin as [k Hk].
    apply (Hord 0%nat (S k)); [done | done | lia].
  - apply (IH i j); [| done | done | lia | done | done].
    case_decide; [by eapply in_order_tail | done].
Qed.

(** X10. Within a category the order of similarity is kept: the returned
    candidates that chose one bucket are a subsequence of the candidates of
    that bucket, so of two returned candidates of the same bucket the one
    the search ranked higher comes first. *)
Theorem category_order_kept names (metas : list pydict) (limit : Z) out :
  Forall (λ d, catalog_item d = true) metas →
  rank names metas limit = Ok out →
  (∀ n, filter (λ r, chosen metas names r = Some n) out.1
        `sublist_of`
        filter (λ r, chosen metas names r = Some n) (seq 0 (length metas)))
  ∧ ∀ i j x y,
      out.1 !! i = Some x → out.1 !! j = Some y → (i < j)%nat →
      chosen metas names x = chosen metas names y →
      (x < y)%nat.
Proof.
  intros Hwf [_ ->]%rank_inv; [| done]. simpl.
  assert (∀ n, filter (λ r, chosen metas names r = Some n)
                 (ranking names metas limit)
               `sublist_of`
               filter (λ r, chosen metas names r = Some n)
                      (seq 0 (length metas))) as Hsub.
  { intros n. etrans; [| apply filter_rounds_bucket].
    apply filter_sublist_mono. unfold ranking.
    etrans; [apply sublist_take | apply first_occurrences_sublist]. }
  split; [done |]. intros i j x y Hi Hj Hlt Hxy.
  destruct (ranking_catalog_ref names metas limit x) as (_ & n & _ & Hn);
    [by eapply list_elem_of_lookup_2 |].
  eapply (in_order_filter (λ r, chosen metas names r = Some n));
    [| exact Hi | exact Hj | done | done | congruence].
  eapply in_order_sublist; [apply Hsub |].
  eapply in_order_sublist; [apply sublist_filter | apply in_order_seq].
Qed.

Lemma category_order_kept_witness : (5 < 6)%nat.
Proof.
  destruct (category_order_kept own_order_names five_K_three_P
              default_max_results
              ([0; 5; 1; 6; 2; 7; 3; 4]%nat,
               normalize_kept [0; 5; 1; 6; 2; 7; 3; 4]%nat five_K_three_P))
    as [_ Horder].
  - by repeat constructor.
  - reflexivity.
  - apply (Horder 1%nat 3%nat); [reflexivity | reflexivity | lia | reflexivity].
Defined.

Lemma first_occurrences_app {A K : Type} `{EqDecision K} (key : A → K)
    (l1 l2 : list A) :
  first_occurrences key (l1 ++ l2)
  = first_occurrences key l1
    ++ filter (λ y, key y ∉ key <$> l1) (first_occurrences key l2).
Proof.
  induction l1 as [|x l1 IH]; csimpl.
  - symmetry. apply filter_all. intros y. apply not_elem_of_nil.
  - f_equal. rewrite IH, filter_app. f_equal.
    rewrite list_filter_filter. apply list_filter_iff. intros y.
    rewrite elem_of_cons. tauto.
Qed.

Lemma take_app_prefix {A : Type} (n : nat) (l1 l2 : list A) :
  take n l1 `prefix_of` take n (l1 ++ l2).
Proof. rewrite take_app. by apply prefix_app_r. Qed.

(** X11. The list returned begins with the most similar candidate of each
    inferred category that has one, in the order of the inferred
    categories, less the repeated urls and up to the limit: no category
    fills the head of the list alone while another has a candidate. *)
Theorem balanced_head names (metas : list pydict) (limit : Z) out :
  Forall (λ d, catalog_item d = true) metas →
  rank names metas limit = Ok out →
  take (Z.to_nat (Z.max 1 limit))
       (first_occurrences (url_key metas)
          (omap head (buckets_of names metas)))
  `prefix_of` out.1.
Proof.
  intros Hwf [_ ->]%rank_inv; [| done]. simpl. unfold ranking.
  set (buckets := buckets_of names metas).
  assert (omap head buckets = round buckets 0) as ->.
  { unfold round. apply list_omap_ext, Forall2_same_length_lookup.
    split; [done |]. intros i b b' Hb Hb'. simplify_eq.
    apply head_lookup. }
  destruct (max_list (length <$> buckets)) as [|N] eqn:HN.
  - assert (round buckets 0 = []) as ->; [| done].
    apply round_nil_exhausted, exhausted_max_list. lia.
  - rewrite rounds_S, first_occurrences_app. apply take_app_prefix.
Qed.

Lemma balanced_head_witness :
  [0; 5]%nat `prefix_of` [0; 5; 1; 6; 2; 7; 3; 4]%nat.
Proof.
  apply (balanced_head own_order_names five_K_three_P default_max_results
           ([0; 5; 1; 6; 2; 7; 3; 4]%nat,
            normalize_kept [0; 5; 1; 6; 2; 7; 3; 4]%nat five_K_three_P)).
  - by repeat constructor.
  - reflexivity.
Defined.

(** ** The crawler *)

(** X12. [make_absolute_url] never returns a url that starts with "/";
    it leaves alone a url that does not, and applying it twice is applying
    it once. *)
Theorem make_absolute_url_absolute (url : string) :
  String.prefix "/" (make_absolute_url url) = false
  ∧ (String.prefix "/" url = false → make_absolute_url url = url)
  ∧ (String.prefix "/" url = true →
       make_absolute_url url = "https://www.shl.com" +:+ url)
  ∧ make_absolute_url (make_absolute_url url) = make_absolute_url url.
Proof.
  unfold make_absolute_url.
  destruct (String.prefix "/" url) eqn:Hp.
  - split; [reflexivity |]. split; [done |]. split; [done | reflexivity].
  - rewrite Hp. split; [done |]. split; [done |]. split; done.
Qed.

Lemma make_absolute_url_absolute_witness :
  make_absolute_url "/products/java-8/" = "https://www.shl.com/products/java-8/"
  ∧ make_absolute_url "https://example.org/x" = "https://example.org/x".
Proof.
  split.
  - by apply (make_absolute_url_absolute "/products/java-8/").
  - by apply (make_absolute_url_absolute "https://example.org/x").
Defined.

Lemma tooltip_loop_good good rest key_map :
  Forall (λ item, is_Some (item_pair item)) good →
  tooltip_loop (good ++ rest) key_map
  = tooltip_loop rest
      (foldl (λ m '(k, v), <[k := v]> m) key_map (omap item_pair good)).
Proof.
  intros Hgood. revert key_map.
  induction Hgood as [|item good [[k v] Hp] _ IH]; intros key_map; [done |].
  unfold item_pair in Hp. csimpl. unfold item_pair.
  destruct (key_tag item) as [[text [next|]]|]; simplify_eq. simpl.
  apply IH.
Qed.

Lemma foldl_insert_list_to_map (pairs : list (string * string))
    (m : gmap string string) :
  foldl (λ m '(k, v), <[k := v]> m) m pairs
  = list_to_map (reverse pairs) ∪ m.
Proof.
  revert m. induction pairs as [|[k v] pairs IH]; intros m; cbn [foldl].
  - by rewrite reverse_nil, list_to_map_nil, (left_id_L ∅ (∪)).
  - rewrite IH, reverse_cons, list_to_map_app.
    rewrite <- (assoc_L (∪)). f_equal.
    cbn [list_to_map foldr uncurry fst snd].
    by rewrite insert_empty, <- insert_union_singleton_l.
Qed.

(** X13. [get_test_type_map] never raises. It holds the entries of the
    tooltip items that come before the first malformed one (one without key
    span, or without text after it), a later entry for a key replacing an
    earlier one: what follows the malformed item is lost. Without tooltip
    the map is empty. *)
Theorem test_type_map_stops_at_malformed (s : soup) :
  (tooltip s = None → get_test_type_map s = ∅)
  ∧ (∀ good, tooltip s = Some good →
       Forall (λ item, is_Some (item_pair item)) good →
       get_test_type_map s = list_to_map (reverse (omap item_pair good)))
  ∧ (∀ good bad rest, tooltip s = Some (good ++ bad :: rest) →
       Forall (λ item, is_Some (item_pair item)) good →
       item_pair bad = None →
       get_test_type_map s = list_to_map (reverse (omap item_pair good))).
Proof.
  unfold get_test_type_map. split; [by intros -> |]. split.
  - intros good -> Hgood.
    rewrite <- (app_nil_r good) at 1. rewrite tooltip_loop_good by done.
    simpl. by rewrite foldl_insert_list_to_map, (right_id_L ∅ (∪)).
  - intros good bad rest -> Hgood Hbad.
    rewrite tooltip_loop_good by done. simpl.
    unfold item_pair in Hbad.
    destruct (key_tag bad) as [[text [next|]]|]; simplify_eq; simpl;
      by rewrite foldl_insert_list_to_map, (right_id_L ∅ (∪)).
Qed.

Lemma test_type_map_stops_at_malformed_witness :
  get_test_type_map
    {| tooltip := Some [ {| key_tag := Some ("K", Some " Knowledge & Skills ") |};
                         {| key_tag := None |};
                         {| key_tag := Some ("P", Some "Personality & Behavior") |} ];
       table_wrappers := []; details_content := None |}
  = list_to_map [("K", "Knowledge & Skills")].
Proof.
  refine (proj2 (proj2 (test_type_map_stops_at_malformed
            {| tooltip := Some [ {| key_tag := Some ("K", Some " Knowledge & Skills ") |};
                                 {| key_tag := None |};
                                 {| key_tag := Some ("P", Some "Personality & Behavior") |} ];
               table_wrappers := []; details_content := None |}))
            [ {| key_tag := Some ("K", Some " Knowledge & Skills ") |} ]
            {| key_tag := None |}
            [ {| key_tag := Some ("P", Some "Personality & Behavior") |} ]
            eq_refl _ eq_refl).
  repeat constructor. by eexists.
Defined.

Lemma make_absolute_url_not_relative (u : string) :
  String.prefix "/" (make_absolute_url u) = false.
Proof.
  unfold make_absolute_url. by destruct (String.prefix "/" u) eqn:Hp.
Qed.

Lemma parse_rows_loop (m : gmap string string) (rows : list product_row)
    (acc : list (gmap string json)) :
  foldl (λ all_assessments r,
           match parse_row m r with
           | Ok (Some assessment_data) => all_assessments ++ [assessment_data]
           | Ok None | Raise _ => all_assessments
           end) acc rows
  = acc ++ omap (λ r, match parse_row m r with
                      | Ok o => o
                      | Raise _ => None
                      end) rows.
Proof.
  revert acc. induction rows as [|r rows IH]; intros acc; csimpl.
  - by rewrite app_nil_r.
  - rewrite IH. destruct (parse_row m r) as [[d|]|]; [| done | done].
    by rewrite <- app_assoc.
Qed.

Lemma parse_page_for_items_closed (s : soup) (m : gmap string string) :
  parse_page_for_items s m
  = omap (λ r, match parse_row m r with
               | Ok o => o
               | Raise _ => None
               end) (product_rows_of s).
Proof.
  unfold parse_page_for_items, product_rows_of.
  destruct (List.find has_rows (table_wrappers s)) as [rows|] eqn:Hfind;
    [| done].
  apply List.find_some in Hfind as [_ ->]. simpl. apply parse_rows_loop.
Qed.

Lemma parse_row_item (m : gmap string string) (r : product_row) :
  match parse_row m r with
  | Ok (Some d) =>
      ∃ a, linked_anchor r = Some a
           ∧ d !! "name" = Some (JStr (PyStr.strip (a_text a)))
           ∧ catalog_entry d
  | Ok None | Raise _ => linked_anchor r = None
  end.
Proof.
  unfold parse_row, linked_anchor.
  destruct (link_tag r) as [a|]; [| done]. simpl.
  destruct (href a) as [u|]; [| done]. simpl.
  exists a. split; [done |]. split; [done |]. split.
  - rewrite !dom_insert_L, dom_empty_L. set_solver.
  - exists (make_absolute_url u). split; [done |].
    apply make_absolute_url_not_relative.
Qed.

Lemma parse_page_for_items_entries (s : soup) (m : gmap string string) :
  Forall catalog_entry (parse_page_for_items s m).
Proof.
  rewrite parse_page_for_items_closed. apply Forall_forall.
  intros d (r & _ & Hd)%list_elem_of_omap.
  pose proof (parse_row_item m r) as Hrow.
  destruct (parse_row m r) as [[d'|]|]; simplify_eq.
  by destruct Hrow as (_ & _ & _ & ?).
Qed.

(** X14. [parse_page_for_items] gives one item for each product row that
    has a link with an [href], in the order of the rows, named after the
    trimmed link text; a row without link, or whose link has no [href], is
    left out and does not stop the others. Every item has exactly the
    fields [name], [url] and [test_type], and its url does not start with
    "/". *)
Theorem parse_page_items (s : soup) (m : gmap string string) :
  (.!! "name") <$> parse_page_for_items s m
  = (λ a, Some (JStr (PyStr.strip (a_text a))))
      <$> omap linked_anchor (product_rows_of s)
  ∧ Forall catalog_entry (parse_page_for_items s m).
Proof.
  split; [| apply parse_page_for_items_entries].
  rewrite parse_page_for_items_closed.
  induction (product_rows_of s) as [|r rows IH]; [done |]. csimpl.
  pose proof (parse_row_item m r) as Hrow.
  destruct (parse_row m r) as [[d|]|].
  - destruct Hrow as (a & -> & Hname & _). csimpl. by rewrite Hname, IH.
  - by rewrite Hrow.
  - by rewrite Hrow.
Qed.



Lemma crawl_pages_unfold fuel get_soup main_soup m p acc :
  crawl_pages (S fuel) get_soup main_soup m p acc
  = match page_items get_soup main_soup m p with
    | None | Some [] => Some (acc, p)
    | Some items_on_page =>
        crawl_pages fuel get_soup main_soup m (S p) (acc ++ items_on_page)
    end.
Proof.
  unfold page_items, catalog_page. cbn [crawl_pages].
  destruct (decide _); simpl.
  - by destruct (parse_page_for_items main_soup m).
  - destruct (get_soup _) as [page|]; simpl; [| done].
    by destruct (parse_page_for_items page m).
Qed.

Lemma crawl_pages_run get_soup main_soup m k fuel :
  ∀ p acc,
    (p ≤ k)%nat →
    (∀ n, (p ≤ n < k)%nat →
          ∃ its, page_items get_soup main_soup m n = Some its ∧ its ≠ []) →
    page_items get_soup main_soup m k = None
    ∨ page_items get_soup main_soup m k = Some [] →
    (k - p < fuel)%nat →
    crawl_pages fuel get_soup main_soup m p acc
    = Some (acc ++ mjoin ((λ n, default [] (page_items get_soup main_soup m n))
                            <$> seq p (k - p)), k).
Proof.
  induction fuel as [|fuel IH]; intros p acc Hpk Hfull Hstop Hfuel; [lia |].
  rewrite crawl_pages_unfold.
  destruct (decide (p = k)) as [->|Hne].
  - rewrite Nat.sub_diag. simpl. rewrite app_nil_r.
    by destruct Hstop as [-> | ->].
  - destruct (Hfull p) as (its & Hits & Hnil); [lia |]. rewrite Hits.
    destruct its as [|it its]; [done |].
    rewrite IH; [| lia | intros n ?; apply Hfull; lia | done | lia].
    replace (k - p)%nat with (S (k - S p)) by lia.
    csimpl. by rewrite Hits, app_assoc.
Qed.

(** X16. The page loop of [main] stops at the first catalog page that
    cannot be fetched or has no items: it has then collected the items of
    the pages before it, in order, and counts that page. *)
Theorem crawl_stops_at_first_empty_page get_soup main_soup m k fuel :
  (1 ≤ k)%nat →
  (∀ n, (1 ≤ n < k)%nat →
        ∃ its, page_items get_soup main_soup m n = Some its ∧ its ≠ []) →
  page_items get_soup main_soup m k = None
  ∨ page_items get_soup main_soup m k = Some [] →
  (k ≤ fuel)%nat →
  crawl_pages fuel get_soup main_soup m 1 []
  = Some (mjoin ((λ n, default [] (page_items get_soup main_soup m n))
                   <$> seq 1 (k - 1)), k).
Proof.
  intros Hk Hfull Hstop Hfuel.
  by rewrite (crawl_pages_run _ _ _ k) by (done || lia).
Qed.

Lemma crawl_pages_endless get_soup main_soup m fuel :
  ∀ p acc,
    (∀ n, (p ≤ n)%nat →
          ∃ its, page_items get_soup main_soup m n = Some its ∧ its ≠ []) →
    crawl_pages fuel get_soup main_soup m p acc = None.
Proof.
  induction fuel as [|fuel IH]; intros p acc Hfull; [done |].
  rewrite crawl_pages_unfold.
  destruct (Hfull p) as (its & -> & Hnil); [lia |].
  destruct its as [|it its]; [done |].
  apply IH. intros n ?. apply Hfull. lia.
Qed.

(** X17. The page loop has no bound of its own: when every catalog page
    comes back with items (a site that ignores [start], say), [main] never
    leaves the loop, whatever the number of steps it is given. *)
Theorem crawler_never_stops get_soup main_soup fuel :
  get_soup CATALOG_URL = Some main_soup →
  (∀ n, (1 ≤ n)%nat →
        ∃ its, page_items get_soup main_soup (get_test_type_map main_soup) n
               = Some its ∧ its ≠ []) →
  crawler_main fuel get_soup = None.
Proof.
  intros Hmain Hfull. unfold crawler_main. rewrite Hmain.
  by rewrite crawl_pages_endless.
Qed.

Lemma crawl_stops_at_first_empty_page_witness :
  crawl_pages 2 catalog_only one_page (get_test_type_map one_page) 1 []
  = Some (parse_page_for_items one_page (get_test_type_map one_page), 2%nat).
Proof.
  apply (crawl_stops_at_first_empty_page catalog_only one_page
           (get_test_type_map one_page) 2 2).
  - lia.
  - intros n Hn. assert (n = 1%nat) as -> by lia.
    eexists. split; [reflexivity | done].
  - left. reflexivity.
  - lia.
Defined.

Lemma crawler_never_stops_witness : crawler_main 1000 same_page = None.
Proof.
  apply (crawler_never_stops same_page one_page 1000).
  - reflexivity.
  - intros n _. exists (parse_page_for_items one_page
                          (get_test_type_map one_page)).
    split; [| done]. unfold page_items, catalog_page.
    by destruct (decide _).
Defined.

Lemma scrape_assessment_details_shape get_soup u details :
  scrape_assessment_details get_soup u = Some details →
  details = default_details
  ∨ ∃ full_desc, full_desc ≠ ""
                 ∧ details = <["description" := JStr full_desc]> default_details.
Proof.
  unfold scrape_assessment_details.
  destruct (get_soup u) as [s|]; [| done]. intros [= <-].
  destruct (details_content s) as [p_texts|]; [| by left].
  case_decide; [by left |]. right. by eexists.
Qed.

Lemma crawled_record_union (details assessment_data : gmap string json) :
  details = default_details
  ∨ (∃ full_desc, full_desc ≠ ""
                  ∧ details = <["description" := JStr full_desc]> default_details) →
  catalog_entry assessment_data →
  crawled_record (details ∪ assessment_data).
Proof.
  intros Hdetails [Hdom (u & Hu & Hrel)].
  assert (dom details
          = ({[ "description"; "adaptive_support"; "duration";
                "remote_support" ]} : gset string)) as Hdd.
  { destruct Hdetails as [-> | (full_desc & _ & ->)];
      unfold default_details; rewrite ?dom_insert_L, dom_list_to_map_L;
      simpl; set_solver. }
  assert (details !! "duration" = Some JNull
          ∧ details !! "adaptive_support" = Some (JStr "No")
          ∧ details !! "remote_support" = Some (JStr "No")
          ∧ (∃ description, details !! "description" = Some (JStr description)
                            ∧ description ≠ "")
          ∧ details !! "url" = None) as (Hd & Ha & Hr & (desc & Hdesc & Hne) & Hnu).
  { destruct Hdetails as [-> | (full_desc & Hne & ->)].
    - do 3 (split; [reflexivity |]). split; [| reflexivity].
      by exists "No description found.".
    - rewrite !lookup_insert_ne by done.
      do 3 (split; [reflexivity |]). split; [| reflexivity].
      exists full_desc. by rewrite lookup_insert_eq. }
  unfold crawled_record. split.
  { rewrite dom_union_L, Hdd, Hdom. unfold response_fields. set_solver. }
  do 3 (split; [by apply lookup_union_Some_l |]). split.
  - exists desc. split; [by apply lookup_union_Some_l | done].
  - exists u. split; [| done]. by rewrite lookup_union_r.
Qed.

Lemma add_details_closed get_soup all_assessment_items :
  Forall catalog_entry all_assessment_items →
  ∀ final_data,
    add_details get_soup all_assessment_items final_data
    = Ok (final_data ++ omap (complete_data get_soup) all_assessment_items).
Proof.
  induction 1 as [|it items Hit _ IH]; intros final_data; simpl.
  { by rewrite app_nil_r. }
  pose proof Hit as [_ (u & Hu & _)].
  unfold item_url, complete_data. rewrite Hu. simpl.
  destruct (scrape_assessment_details get_soup u) as [details|]; simpl.
  - by rewrite IH, <- app_assoc.
  - apply IH.
Qed.

Lemma complete_data_record get_soup (assessment_data d : gmap string json) :
  catalog_entry assessment_data →
  complete_data get_soup assessment_data = Some d →
  crawled_record d
  ∧ d !! "url" = assessment_data !! "url"
  ∧ d !! "name" = assessment_data !! "name"
  ∧ d !! "test_type" = assessment_data !! "test_type".
Proof.
  intros Hit Hd. pose proof Hit as [_ (u & Hu & _)].
  unfold complete_data in Hd. rewrite Hu in Hd.
  destruct (scrape_assessment_details get_soup u) as [details|] eqn:Hs;
    [| done].
  injection Hd as <-. apply scrape_assessment_details_shape in Hs.
  split; [by apply crawled_record_union |].
  destruct Hs as [-> | (full_desc & _ & ->)];
    (do 2 (split; [by apply lookup_union_r |]); by apply lookup_union_r).
Qed.

(** X18. When the page loop stops (the catalog was fetched, and page [k]
    is the first that cannot be fetched or has no items), nothing is raised
    from the first fetch to the end of the details loop, and the list [main]
    hands to [json.dump] is, in the order the items were found, each item
    whose own page could be fetched, completed with its details: an item
    whose page cannot be fetched is left out, and every item whose page is
    fetched is there with its name, url and test_type. Every record has
    exactly the seven fields of a response record, a url that does not
    start with "/", a description that is not empty, and always [duration]
    null and "No" for [adaptive_support] and [remote_support]. *)
Theorem crawler_writes_crawled_records get_soup main_soup k fuel :
  get_soup CATALOG_URL = Some main_soup →
  (1 ≤ k)%nat →
  (∀ n, (1 ≤ n < k)%nat →
        ∃ its, page_items get_soup main_soup (get_test_type_map main_soup) n
               = Some its ∧ its ≠ []) →
  page_items get_soup main_soup (get_test_type_map main_soup) k = None
  ∨ page_items get_soup main_soup (get_test_type_map main_soup) k = Some [] →
  (k ≤ fuel)%nat →
  ∃ all_assessment_items final_data,
    all_assessment_items
    = mjoin ((λ n, default [] (page_items get_soup main_soup
                                 (get_test_type_map main_soup) n))
               <$> seq 1 (k - 1))
    ∧ final_data = omap (complete_data get_soup) all_assessment_items
    ∧ crawler_main fuel get_soup = Some (Ok (Some final_data))
    ∧ Forall crawled_record final_data
    ∧ (∀ assessment_data u,
         assessment_data ∈ all_assessment_items →
         assessment_data !! "url" = Some (JStr u) →
         is_Some (get_soup u) →
         ∃ d, d ∈ final_data
              ∧ d !! "url" = Some (JStr u)
              ∧ d !! "name" = assessment_data !! "name"
              ∧ d !! "test_type" = assessment_data !! "test_type")
    ∧ (∀ assessment_data u,
         assessment_data ∈ all_assessment_items →
         assessment_data !! "url" = Some (JStr u) →
         get_soup u = None →
         complete_data get_soup assessment_data = None).
Proof.
  intros Hmain Hk Hfull Hstop Hfuel. eexists _, _.
  split; [reflexivity |]. split; [reflexivity |].
  set (items := mjoin _).
  assert (Forall catalog_entry items) as Hitems.
  { apply Forall_forall. intros d (its & Hd & Hits)%list_elem_of_join.
    apply list_elem_of_fmap in Hits as (n & -> & Hn).
    unfold page_items in Hd.
    destruct (catalog_page get_soup main_soup n) as [page|];
      [| by inversion Hd].
    simpl in Hd. revert d Hd. apply Forall_forall.
    apply parse_page_for_items_entries. }
  split; [| split; [| split]].
  - unfold crawler_main. rewrite Hmain.
    rewrite (crawl_pages_run _ _ _ k) by (done || lia). simpl.
    fold items. by rewrite add_details_closed.
  - apply Forall_forall. intros d (it & Hit & Hd)%list_elem_of_omap.
    rewrite Forall_forall in Hitems.
    by destruct (complete_data_record get_soup it d (Hitems it Hit) Hd).
  - intros it u Hit Hu [s Hs].
    assert (∃ d, complete_data get_soup it = Some d) as [d Hd].
    { unfold complete_data, scrape_assessment_details. rewrite Hu, Hs.
      by eexists. }
    rewrite Forall_forall in Hitems.
    destruct (complete_data_record get_soup it d (Hitems it Hit) Hd)
      as (_ & Hurl & Hname & Htype).
    exists d. split; [| by rewrite Hurl].
    apply list_elem_of_omap. by exists it.
  - intros it u _ Hu Hnone.
    unfold complete_data, scrape_assessment_details. by rewrite Hu, Hnone.
Qed.

Lemma crawler_writes_crawled_records_witness :
  crawler_main 2 java_site = Some (Ok (Some [java_record]))
  ∧ crawled_record java_record.
Proof.
  destruct (crawler_writes_crawled_records java_site one_page 2 2)
    as (items & final_data & -> & -> & Hrun & Hrecords & _).
  - reflexivity.
  - lia.
  - intros n Hn. assert (n = 1%nat) as -> by lia.
    eexists. split; [reflexivity | done].
  - left. reflexivity.
  - lia.
  - split; [exact Hrun |]. by apply Forall_inv in Hrecords.
Defined.

(** ** The API *)

Lemma mapM_omap {A B C : Type} (f : B → result C) (g : A → option B)
    (h : A → option C) (l : list A) :
  Forall (λ x, ∃ d y, g x = Some d ∧ f d = Ok y ∧ h x = Some y) l →
  mapM f (omap g l) = Ok (omap h l).
Proof.
  induction 1 as [|x l (d & y & Hg & Hf & Hh) _ IH]; [done |].
  cbn [omap list_omap]. rewrite Hg, Hh. cbn [mapM]. by rewrite Hf, IH.
Qed.

Lemma validate_metadata str_of_int int_of_str (r : row) (l : list string) :
  validate str_of_int int_of_str (<["test_type" := VList l]> (metadata r))
  = Ok {| url := row_url r; name := row_name r;
          adaptive_support := row_adaptive_support r;
          description := row_description r;
          duration := default (-1) (row_duration r);
          remote_support := row_remote_support r;
          test_type := l |}.
Proof.
  unfold validate, str_field, int_field, list_str_field, metadata. simpl.
  repeat (rewrite ?lookup_insert_eq, ?lookup_insert_ne by done; simpl).
  by destruct (row_duration r).
Qed.

(** X19. A recommender that failed to load is not noticed by the API:
    the constructor catches the failure, so the module-level recommender is
    never [None], the health check answers "healthy", and every request for
    recommendations is answered 500 with the validation error of the
    one-field error record, never with "Recommender model is not loaded". *)
Theorem failed_load_reports_healthy str_of_int int_of_str
    (e : exn) (w : backend) :
  (∀ load, api_recommender load ≠ None)
  ∧ health_check (api_recommender (Raise e)) = Http200 "healthy"
  ∧ recommend_assessments str_of_int int_of_str (api_recommender (Raise e)) w
    = Http500 (StrOf ValueError).
Proof.
  split; [by intros [[]|] |]. split; reflexivity.
Qed.

Lemma records_of_stored_rows (rows : list row) names limit :
  Forall (λ r, row_test_type r ≠ [] ∧ Forall clean (row_test_type r)) rows →
  Forall (λ r, ∃ d row,
            normalize_kept (ranking names (metadata <$> rows) limit)
                           (metadata <$> rows) !! r = Some d
            ∧ rows !! r = Some row
            ∧ d = <["test_type" := VList (row_test_type row)]> (metadata row))
         (ranking names (metadata <$> rows) limit).
Proof.
  intros Hrows. apply Forall_forall. intros r Hr.
  assert (Forall (λ d, catalog_item d = true) (metadata <$> rows)) as Hwf.
  { apply stored_item_catalog_item, Forall_fmap, Forall_forall.
    intros row _. apply metadata_stored_item. }
  destruct (ranking_record _ _ _ _ Hwf Hr) as (d0 & s & Hd0 & Hs & Hlook).
  rewrite list_lookup_fmap in Hd0.
  destruct (rows !! r) as [row|] eqn:Hrow; [| done].
  simpl in Hd0. injection Hd0 as <-.
  assert (s = str_join ", " (row_test_type row)) as ->.
  { unfold metadata in Hs. simpl in Hs.
    rewrite !lookup_insert_ne, lookup_insert_eq in Hs by done. congruence. }
  destruct (Forall_lookup_1 _ _ _ _ Hrows Hrow) as [Hne Hclean].
  rewrite split_strip_join in Hlook by done.
  by exists (<["test_type" := VList (row_test_type row)]> (metadata row)), row.
Qed.

(** X20. From the embedder to the API and back: when the search returns
    the metadata the embedder stored for rows whose category names are
    clean (and there is at least one per row), a query that
    [get_recommendations] answers is answered 200, whatever the version of
    the validation, with one assessment per recommended record, in order,
    each with the fields of its row: the category list of the row is
    recovered from the joined string. *)
Theorem stored_rows_round_trip str_of_int int_of_str (w : backend)
    (rows : list row) rest out :
  Forall (λ r, row_test_type r ≠ [] ∧ Forall clean (row_test_type r)) rows →
  query w = Ok (Some ((metadata <$> rows) :: rest)) →
  get_recommendations {| client := true; embed_model := true |} w
    default_max_results = Ok out →
  recommend_assessments str_of_int int_of_str (api_recommender (Ok ())) w
  = Http200 (omap (λ r, assessment_of_row <$> rows !! r) out.1).
Proof.
  intros Hrows Hq Hrun. unfold recommend_assessments, api_recommender. simpl.
  rewrite Hrun. simpl.
  apply get_recommendations_inv in Hrun as [names Hrun]; [| done | done].
  unfold search_and_rank in Hrun. rewrite Hq in Hrun.
  apply rank_inv in Hrun as [_ ->].
  2:{ apply stored_item_catalog_item, Forall_fmap, Forall_forall.
      intros row _. apply metadata_stored_item. }
  unfold records. simpl.
  erewrite mapM_omap; [done |].
  eapply Forall_impl; [by apply records_of_stored_rows |].
  intros r (d & row & Hd & Hrow & ->). simpl.
  exists (<["test_type" := VList (row_test_type row)]> (metadata row)),
         (assessment_of_row row).
  split; [done |]. split; [apply validate_metadata | by rewrite Hrow].
Qed.

Lemma stored_rows_round_trip_witness :
  recommend_assessments (λ _, None) (λ _, None) (api_recommender (Ok ()))
    (world K_and_P (metadata <$> two_rows))
  = Http200 [assessment_of_row java_8; assessment_of_row opq].
Proof.
  apply (stored_rows_round_trip _ _ (world K_and_P (metadata <$> two_rows))
           two_rows []
           ([0; 1]%nat, normalize_kept [0; 1]%nat (metadata <$> two_rows))).
  - repeat constructor; done.
  - reflexivity.
  - reflexivity.
Defined.

(** X21. A request whose classifier reply names no known category, while
    the search returns candidates, is answered 500: the [ValueError] of the
    interleave step is caught by the endpoint. *)
Theorem no_category_is_500 str_of_int int_of_str (w : backend) keys metas rest :
  _analyze_query_with_llm (llm w) = Ok keys →
  required_type_names keys = Ok [] →
  encode w = Ok () →
  query w = Ok (Some (metas :: rest)) →
  recommend_assessments str_of_int int_of_str (api_recommender (Ok ())) w
  = Http500 (StrOf ValueError).
Proof.
  intros Hkeys Hnames Henc Hq. unfold recommend_assessments, api_recommender.
  simpl. rewrite (get_recommendations_ready _ _ _ keys []) by done.
  unfold search_and_rank. by rewrite Hq, rank_no_name.
Qed.

Lemma no_category_is_500_witness :
  recommend_assessments (λ _, None) (λ _, None) (api_recommender (Ok ()))
    (world (JList []) sample_metas)
  = Http500 (StrOf ValueError).
Proof.
  by eapply (no_category_is_500 _ _ (world (JList []) sample_metas)).
Defined.

(** X22. A request whose vector search fails, or returns no metadata, is
    answered 200 with an empty list of assessments, not with an error. *)
Theorem failed_search_is_200 str_of_int int_of_str (w : backend) keys names :
  _analyze_query_with_llm (llm w) = Ok keys →
  required_type_names keys = Ok names →
  encode w = Ok () →
  (∃ e, query w = Raise e) ∨ query w = Ok None ∨ query w = Ok (Some []) →
  recommend_assessments str_of_int int_of_str (api_recommender (Ok ())) w
  = Http200 [].
Proof.
  intros Hkeys Hnames Henc Hq. unfold recommend_assessments, api_recommender.
  simpl. rewrite (get_recommendations_ready _ _ _ keys names) by done.
  unfold search_and_rank. by destruct Hq as [[e ->]|[->| ->]].
Qed.

Lemma failed_search_is_200_witness :
  recommend_assessments (λ _, None) (λ _, None) (api_recommender (Ok ()))
    {| llm := Some (Ok K_and_P); encode := Ok ();
       query := Raise (ExternalError "index unavailable") |}
  = Http200 [].
Proof.
  eapply (failed_search_is_200 _ _
            {| llm := Some (Ok K_and_P); encode := Ok ();
               query := Raise (ExternalError "index unavailable") |});
    try reflexivity.
  left. by eexists.
Defined.

(** ** The prediction script *)

Lemma prediction_rows_app self qs1 qs2 submission_rows :
  prediction_rows self (qs1 ++ qs2) submission_rows
  = rows ← prediction_rows self qs1 submission_rows;
    prediction_rows self qs2 rows.
Proof.
  revert submission_rows.
  induction qs1 as [|[q w] qs1 IH]; intros submission_rows; [done |].
  cbn [app prediction_rows].
  destruct (get_recommendations self w default_max_results) as [out|];
    [| done].
  cbn [mbind result_bind]. destruct (out.1); [apply IH |].
  destruct (mapM _ _); [apply IH | done].
Qed.

Lemma length_omap_Some {A B : Type} (g : A → option B) (l : list A) :
  Forall (λ x, is_Some (g x)) l → length (omap g l) = length l.
Proof.
  induction 1 as [|x l [y Hy] _ IH]; [done |].
  cbn [omap list_omap]. rewrite Hy. simpl. by rewrite IH.
Qed.

Lemma records_have_url self (w : backend) max_results out :
  client self = true → embed_model self = true →
  (∀ metas rest, query w = Ok (Some (metas :: rest)) →
                 Forall (λ d, catalog_item d = true) metas) →
  get_recommendations self w max_results = Ok out →
  Forall (λ d, is_Some (d !! "url")) (records out)
  ∧ length (records out) = length out.1
  ∧ (length out.1 ≤ Z.to_nat (Z.max 1 max_results))%nat.
Proof.
  intros Hc He Hwf Hrun.
  apply get_recommendations_inv in Hrun as [names Hrun]; [| done | done].
  unfold search_and_rank in Hrun.
  destruct (query w) as [[[|metas rest]|]|e] eqn:Hq;
    try (injection Hrun as <-; split; [constructor | simpl; lia]).
  apply rank_inv in Hrun as [_ ->]; [| by eapply Hwf].
  unfold records. simpl. split; [| split].
  - apply Forall_forall. intros d (r & Hr & Hd)%list_elem_of_omap.
    destruct (ranking_record _ _ _ _ (Hwf _ _ eq_refl) Hr)
      as (d0 & s & Hd0 & _ & Hlook).
    rewrite Hlook in Hd. injection Hd as <-.
    rewrite lookup_insert_ne by done.
    pose proof (Forall_lookup_1 _ _ _ _ (Hwf _ _ eq_refl) Hd0) as Hitem.
    destruct (catalog_item_fields _ Hitem) as (u & _ & _ & -> & _). by eexists.
  - apply length_omap_Some, Forall_forall. intros r Hr.
    destruct (ranking_record _ _ _ _ (Hwf _ _ eq_refl) Hr)
      as (d0 & s & _ & _ & ->). by eexists.
  - unfold ranking. rewrite length_take. lia.
Qed.

Lemma mapM_url (q : string) (ds : list pydict) :
  Forall (λ d, is_Some (d !! "url")) ds →
  mapM (λ rec, Assessment_url ← getitem rec "url"; Ok (q, Assessment_url)) ds
  = Ok (omap (λ rec, (q,.) <$> rec !! "url") ds).
Proof.
  induction 1 as [|d ds [u Hu] _ IH]; [done |].
  cbn [mapM omap list_omap]. rewrite IH. unfold getitem. by rewrite Hu.
Qed.

(** X23. The prediction script does not survive a recommender that failed
    to load: with at least one query it raises [KeyError] (the error record
    has no [url]) and writes no file, whatever the queries and the
    answers. *)
Theorem predictions_failed_load_raises (e : exn) (q : string) (w : backend)
    queries save :
  predictions_main (Ok ((q, w) :: queries)) (Raise e) save = Raise KeyError.
Proof. reflexivity. Qed.

(** X24. One query for which [get_recommendations] raises ends the script
    with that exception: the rows of the queries before it are lost, the
    queries after it are not run and no file is written. *)
Theorem one_failing_query_aborts qs1 q (w : backend) qs2 rows1 e save :
  prediction_rows {| client := true; embed_model := true |} qs1 []
  = Ok rows1 →
  get_recommendations {| client := true; embed_model := true |} w
    default_max_results = Raise e →
  predictions_main (Ok (qs1 ++ (q, w) :: qs2)) (Ok ()) save = Raise e.
Proof.
  intros Hrows Hrun. unfold predictions_main. simpl.
  rewrite prediction_rows_app, Hrows. simpl. by rewrite Hrun.
Qed.

Lemma one_failing_query_aborts_witness :
  predictions_main (Ok ([good_query] ++ bad_query :: [good_query]))
    (Ok ()) (Ok ())
  = Raise ValueError.
Proof.
  eapply (one_failing_query_aborts [good_query] "???"
            (world (JList []) (metadata <$> two_rows))); reflexivity.
Defined.

(** X25. When the recommender is loaded, the search returns catalog items
    and no query raises, the rows of the script are, query after query in
    the order of the test set, the urls of the records recommended for it:
    at most ten rows for a query, and none for a query without
    recommendation. *)
Theorem prediction_rows_in_order queries :
  Forall (λ qw, (∀ metas rest, query qw.2 = Ok (Some (metas :: rest)) →
                   Forall (λ d, catalog_item d = true) metas)
                ∧ ∃ out, get_recommendations
                           {| client := true; embed_model := true |} qw.2
                           default_max_results = Ok out) queries →
  ∃ outs,
    Forall2 (λ qw out, get_recommendations
                         {| client := true; embed_model := true |} qw.2
                         default_max_results = Ok out) queries outs
    ∧ prediction_rows {| client := true; embed_model := true |} queries []
      = Ok (mjoin (zip_with (λ qw out, rows_of_query qw.1 out) queries outs))
    ∧ Forall2 (λ qw out, length (rows_of_query qw.1 out) = length out.1
                         ∧ (length out.1 ≤ 10)%nat) queries outs.
Proof.
  intros Hqs.
  enough (∀ acc, ∃ outs,
    Forall2 (λ qw out, get_recommendations
                         {| client := true; embed_model := true |} qw.2
                         default_max_results = Ok out) queries outs
    ∧ prediction_rows {| client := true; embed_model := true |} queries acc
      = Ok (acc ++ mjoin (zip_with (λ qw out, rows_of_query qw.1 out)
                            queries outs))
    ∧ Forall2 (λ qw out, length (rows_of_query qw.1 out) = length out.1
                         ∧ (length out.1 ≤ 10)%nat) queries outs) as Hgen.
  { apply (Hgen []). }
  induction Hqs as [|[q w] queries [Hwf [out Hout]] _ IH]; intros acc.
  { exists []. split; [constructor |]. split; [| constructor].
    simpl. by rewrite app_nil_r. }
  simpl in Hwf, Hout.
  destruct (records_have_url {| client := true; embed_model := true |}
              w default_max_results out eq_refl eq_refl Hwf Hout)
    as (Hurl & Hrec & Hlen).
  assert (length (rows_of_query q out) = length out.1) as Hrows.
  { unfold rows_of_query. rewrite length_omap_Some; [done |].
    eapply Forall_impl; [exact Hurl |]. intros d [u ->]. by eexists. }
  assert (prediction_rows {| client := true; embed_model := true |}
            ((q, w) :: queries) acc
          = prediction_rows {| client := true; embed_model := true |}
              queries (acc ++ rows_of_query q out)) as Hstep.
  { cbn [prediction_rows]. rewrite Hout. cbn [mbind result_bind].
    destruct (out.1) as [|r rs] eqn:Hout1.
    - destruct (rows_of_query q out); [| done]. by rewrite app_nil_r.
    - by rewrite mapM_url. }
  destruct (IH (acc ++ rows_of_query q out)) as (outs & Hall & Hrun & Hlens).
  exists (out :: outs). split; [by constructor |]. split.
  - rewrite Hstep, Hrun. simpl. by rewrite app_assoc.
  - constructor; [| done]. split; [done |]. simpl.
    change (Z.to_nat (Z.max 1 default_max_results)) with 10%nat in Hlen.
    exact Hlen.
Qed.

Lemma prediction_rows_in_order_witness :
  ∃ outs,
    Forall2 (λ qw out, get_recommendations
                         {| client := true; embed_model := true |} qw.2
                         default_max_results = Ok out)
            [good_query; good_query] outs
    ∧ prediction_rows {| client := true; embed_model := true |}
        [good_query; good_query] []
      = Ok (mjoin (zip_with (λ qw out, rows_of_query qw.1 out)
                     [good_query; good_query] outs))
    ∧ Forall2 (λ qw out, length (rows_of_query qw.1 out) = length out.1
                         ∧ (length out.1 ≤ 10)%nat)
              [good_query; good_query] outs.
Proof.
  apply (prediction_rows_in_order [good_query; good_query]).
  assert (Forall (λ d, catalog_item d = true) (metadata <$> two_rows)) as Hwf.
  { by repeat constructor. }
  repeat constructor.
  - by intros metas rest [= <- <-].
  - eexists. reflexivity.
  - by intros metas rest [= <- <-].
  - eexists. reflexivity.
Defined.

(** ** Interleaving, for one bucket or more *)

(** X26. For every non-empty sequence of buckets, the interleave
    operation returns round 0, then round 1, and so on, where round [i]
    holds index [i] of every bucket that is not exhausted at [i], in
    priority order; a round is empty exactly when every bucket is exhausted,
    and the rounds emitted are exactly those before that point. For buckets
    of sizes 3, 1 and 2 the output is X1, Y1, Z1, X2, Z2, X3. *)
Theorem interleave_round_robin {A : Type} (lists : list (list A)) :
  lists ≠ [] →
  ∃ n : nat,
    _interleave_lists lists = Ok (rounds lists n)
    ∧ (∀ i, round lists i = omap (λ bucket, bucket !! i) lists)
    ∧ (∀ i, round lists i = [] ↔ exhausted lists i)
    ∧ (∀ i, exhausted lists i ↔ (n ≤ i)%nat)
    ∧ (∀ x1 x2 x3 y1 z1 z2 : A,
         _interleave_lists [[x1; x2; x3]; [y1]; [z1; z2]]
         = Ok [x1; y1; z1; x2; z2; x3]).
Proof.
  intros Hne. exists (max_list (length <$> lists)).
  split; [by apply interleave_rounds |].
  split; [done |].
  split; [apply round_nil_exhausted |].
  split; [apply exhausted_max_list | done].
Qed.

Lemma interleave_round_robin_witness :
  ∃ n : nat,
    _interleave_lists [[1; 2; 3]; [4]; [5; 6]]%nat
    = Ok (rounds [[1; 2; 3]; [4]; [5; 6]]%nat n)
    ∧ (∀ i, exhausted [[1; 2; 3]; [4]; [5; 6]]%nat i ↔ (n ≤ i)%nat)
    ∧ _interleave_lists [[1; 2; 3]; [4]; [5; 6]]%nat
      = Ok [1; 4; 5; 2; 6; 3]%nat.
Proof.
  destruct (interleave_round_robin [[1; 2; 3]; [4]; [5; 6]]%nat)
    as (n & Hrun & _ & _ & Hstop & Hex); [done |].
  exists n. split; [exact Hrun |]. split; [exact Hstop | apply Hex].
Defined.
